(** * PreloadJS: AbstractLoader and XHRLoader

    A shallow embedding of [src/preloadjs/AbstractLoader.js] and of the
    XHRLoader built on it.  A loader is a record of its JavaScript fields; the
    browser objects it touches (the XHR transport, the pending timers, the
    placeholder tag of the item, the document head) are part of the same
    world.  Methods are computations in a state-and-exception monad whose
    state survives a throw, as the heap of a JavaScript program does.  What
    reaches the user (callbacks and dispatched events) is appended to a log.

    Numbers are binary64 floats, as JavaScript numbers are.

    What the model leaves out:
    - the user's callbacks and listeners are only recorded in the log: they
      do not call back into the loader, and they do not throw;
    - time: a pending timer may elapse at any moment, so
      [createjs.PreloadJS.TIMEOUT_TIME] plays no part;
    - the text evaluated for a JSON item has no effect of its own; [eval] is
      a parameter that tells whether the text evaluates, and to what;
    - a parsed XML document is kept symbolic. *)

From Stdlib Require Import Bool List String Ascii ZArith Lia Floats.
Import ListNotations.
Local Open Scope string_scope.
Local Open Scope bool_scope.

(** ** Values held by the loader and the transport *)

(** Content kinds: the constants [createjs.PreloadJS.IMAGE] ... ; any other
    string an item may carry as [type] is [OtherType]. *)
Inductive item_type : Type :=
| IMAGE | JAVASCRIPT | CSS | XML | SVG | JSON | TEXT | BINARY
| OtherType (name : string).

(** What [_response], [_rawResponse] and the transport's response fields may
    hold.  [Null] stands for both [null] and [undefined]: the source only
    ever tests these fields with [!= null]. *)
Inductive value : Type :=
| Null
| Text (s : string)
| Buffer (bytes : list ascii)
| XmlDocument (source : value) (mime : option string)
| Evaluated (source : string)
| ScriptTag (text : value)
| ItemTag.

(** A thrown JavaScript value. *)
Inductive exn : Type :=
| TypeError (what : string)
| ReferenceError (what : string)
| TransportFault (what : string).

(** A property whose getter may throw when read. *)
Inductive access : Type :=
| Reads (v : value)
| Raises (e : exn).

(** The loader's methods that get bound to a transport hook or a timer. *)
Inductive handler : Type :=
| H_handleLoadStart | H_handleProgress | H_handleAbort | H_handleError
| H_handleTimeout | H_handleLoad | H_handleReadyStateChange.

(** The value of [request.status]: a number on XMLHttpRequest and the ActiveX
    objects, absent on XDomainRequest, possibly a string on a host object.
    A number status is integer-valued. *)
Inductive status_value : Type :=
| StatusNumber (n : Z)
| StatusString (s : string)
| StatusUndefined.

Inductive transport_kind : Type :=
| XDomainRequest | XMLHttpRequest | ActiveXObject (progid : string).

(** The transport object.  Hooks are [None] when [null]. *)
Record request : Type := mkRequest {
  kind : transport_kind;
  onloadstart : option handler;
  onprogress : option handler;
  onabort : option handler;
  onerror : option handler;
  onload : option handler;
  ontimeout : option handler;
  onloadend : option handler;
  onreadystatechange : option handler;
  readyState : Z;
  status : status_value;
  response : value;
  responseText : access;
  responseXML : access;
  responseType : option string;      (* [None]: the property does not exist *)
  overrideMimeType : bool;           (* the method exists *)
  mimeOverride : option string;
  opened : option (string * string * bool);
  requestHeaders : list (string * string);
  send_fault : option exn;           (* what [send()] throws, if it throws *)
  sent : nat;
  aborted : bool
}.

(** The placeholder element an item may carry as [tag]. *)
Inductive node : Type :=
| TextNode (text : value)
| DocumentElement (doc : value).

Record element : Type := mkElement {
  el_onload : bool;                  (* bound to this loader's [_handleTagReady] *)
  el_src : option string;
  el_styleSheet : option value;      (* IE: [Some cssText] when [styleSheet] exists *)
  el_children : list node;
  el_in_head : bool
}.

Record item : Type := mkItem {
  src : string;
  type : item_type;
  tag : option element
}.

(** ** Notifications *)

Inductive notice_kind : Type := LoadStart | Progress | Complete | Error.

(** The two ways a notification leaves the loader: the [onXxx] callback and
    [dispatchEvent]. *)
Inductive sink : Type := Callback | Dispatch.

(** The argument of [_sendProgress]. *)
Inductive progress_value : Type :=
| NumberObject (v : float)           (* [new Number(v)]: [instanceof Number] *)
| Primitive (v : float)              (* a primitive number *)
| Pair (loaded total : float)        (* [{loaded, total}] *)
| Undefined.

Inductive payload : Type :=
| NoPayload
| ProgressEvent (loaded total : float)
| ProgressPrimitive (v : float)
| ErrorEvent (source : option exn).

Record notice : Type := Notice {
  via : sink;
  what : notice_kind;
  carrying : payload
}.

(** ** The loader and its world *)

Record loader : Type := mkLoader {
  loaded : bool;
  canceled : bool;
  progress : float;
  _item : item;
  onProgress : bool;                 (* a callback is installed *)
  onLoadStart : bool;
  onComplete : bool;
  onError : bool;
  _listeners : bool;
  _request : option request;
  _loadTimeout : option nat;
  _xhrLevel : Z;
  _response : value;
  _rawResponse : value
}.

(** An address as an [<a>] element resolves it. *)
Record address : Type := mkAddress {
  hostname : string;
  port : string;
  protocol : string
}.

Record window : Type := mkWindow {
  createjs : bool;                   (* [window.createjs != null] *)
  has_XDomainRequest : bool;
  has_XMLHttpRequest : bool;
  has_DOMParser : bool;
  has_XMLDOM : bool;                 (* [new ActiveXObject("Microsoft.XMLDOM")] works *)
  new_transport : transport_kind -> option request;  (* [None]: [new] throws *)
  resolve : string -> address;       (* [a.href = s] then reading [a] *)
  location : address;
  location_origin : string;
  head : bool;                       (* the document has a [<head>] *)
  timers : list nat;                 (* pending [setTimeout] handles *)
  next_timer : nat
}.

Record world : Type := mkWorld {
  self : loader;
  win : window;
  log : list notice
}.

(** ** Field updates *)

Definition set_loaded (b : bool) (l : loader) : loader :=
  mkLoader b (canceled l) (progress l) (_item l) (onProgress l) (onLoadStart l)
    (onComplete l) (onError l) (_listeners l) (_request l) (_loadTimeout l)
    (_xhrLevel l) (_response l) (_rawResponse l).

Definition set_canceled (b : bool) (l : loader) : loader :=
  mkLoader (loaded l) b (progress l) (_item l) (onProgress l) (onLoadStart l)
    (onComplete l) (onError l) (_listeners l) (_request l) (_loadTimeout l)
    (_xhrLevel l) (_response l) (_rawResponse l).

Definition set_progress (p : float) (l : loader) : loader :=
  mkLoader (loaded l) (canceled l) p (_item l) (onProgress l) (onLoadStart l)
    (onComplete l) (onError l) (_listeners l) (_request l) (_loadTimeout l)
    (_xhrLevel l) (_response l) (_rawResponse l).

Definition set_item (i : item) (l : loader) : loader :=
  mkLoader (loaded l) (canceled l) (progress l) i (onProgress l) (onLoadStart l)
    (onComplete l) (onError l) (_listeners l) (_request l) (_loadTimeout l)
    (_xhrLevel l) (_response l) (_rawResponse l).

Definition set_request (r : option request) (l : loader) : loader :=
  mkLoader (loaded l) (canceled l) (progress l) (_item l) (onProgress l)
    (onLoadStart l) (onComplete l) (onError l) (_listeners l) r (_loadTimeout l)
    (_xhrLevel l) (_response l) (_rawResponse l).

Definition set_loadTimeout (t : option nat) (l : loader) : loader :=
  mkLoader (loaded l) (canceled l) (progress l) (_item l) (onProgress l)
    (onLoadStart l) (onComplete l) (onError l) (_listeners l) (_request l) t
    (_xhrLevel l) (_response l) (_rawResponse l).

Definition set_xhrLevel (n : Z) (l : loader) : loader :=
  mkLoader (loaded l) (canceled l) (progress l) (_item l) (onProgress l)
    (onLoadStart l) (onComplete l) (onError l) (_listeners l) (_request l)
    (_loadTimeout l) n (_response l) (_rawResponse l).

Definition set_response (v : value) (l : loader) : loader :=
  mkLoader (loaded l) (canceled l) (progress l) (_item l) (onProgress l)
    (onLoadStart l) (onComplete l) (onError l) (_listeners l) (_request l)
    (_loadTimeout l) (_xhrLevel l) v (_rawResponse l).

Definition set_rawResponse (v : value) (l : loader) : loader :=
  mkLoader (loaded l) (canceled l) (progress l) (_item l) (onProgress l)
    (onLoadStart l) (onComplete l) (onError l) (_listeners l) (_request l)
    (_loadTimeout l) (_xhrLevel l) (_response l) v.

(** The user's subscriptions: [loader.onComplete = f], [addEventListener]. *)
Definition subscribe (prog start complete err listeners : bool) (l : loader) : loader :=
  mkLoader (loaded l) (canceled l) (progress l) (_item l) prog start complete err
    listeners (_request l) (_loadTimeout l) (_xhrLevel l) (_response l)
    (_rawResponse l).

Definition set_hooks (ls pr ab er ld ti le rs : option handler) (r : request) : request :=
  mkRequest (kind r) ls pr ab er ld ti le rs (readyState r) (status r)
    (response r) (responseText r) (responseXML r) (responseType r)
    (overrideMimeType r) (mimeOverride r) (opened r) (requestHeaders r)
    (send_fault r) (sent r) (aborted r).

Definition set_readyState (n : Z) (r : request) : request :=
  mkRequest (kind r) (onloadstart r) (onprogress r) (onabort r) (onerror r)
    (onload r) (ontimeout r) (onloadend r) (onreadystatechange r) n (status r)
    (response r) (responseText r) (responseXML r) (responseType r)
    (overrideMimeType r) (mimeOverride r) (opened r) (requestHeaders r)
    (send_fault r) (sent r) (aborted r).

(** What the network writes into the transport when an answer arrives. *)
Definition set_answer (st : status_value) (resp : value) (txt xml : access)
    (r : request) : request :=
  mkRequest (kind r) (onloadstart r) (onprogress r) (onabort r) (onerror r)
    (onload r) (ontimeout r) (onloadend r) (onreadystatechange r) (readyState r)
    st resp txt xml (responseType r) (overrideMimeType r) (mimeOverride r)
    (opened r) (requestHeaders r) (send_fault r) (sent r) (aborted r).

Definition set_responseType (t : option string) (r : request) : request :=
  mkRequest (kind r) (onloadstart r) (onprogress r) (onabort r) (onerror r)
    (onload r) (ontimeout r) (onloadend r) (onreadystatechange r) (readyState r)
    (status r) (response r) (responseText r) (responseXML r) t
    (overrideMimeType r) (mimeOverride r) (opened r) (requestHeaders r)
    (send_fault r) (sent r) (aborted r).

Definition set_mimeOverride (m : option string) (r : request) : request :=
  mkRequest (kind r) (onloadstart r) (onprogress r) (onabort r) (onerror r)
    (onload r) (ontimeout r) (onloadend r) (onreadystatechange r) (readyState r)
    (status r) (response r) (responseText r) (responseXML r) (responseType r)
    (overrideMimeType r) m (opened r) (requestHeaders r) (send_fault r) (sent r)
    (aborted r).

Definition set_opened (o : option (string * string * bool)) (r : request) : request :=
  mkRequest (kind r) (onloadstart r) (onprogress r) (onabort r) (onerror r)
    (onload r) (ontimeout r) (onloadend r) (onreadystatechange r) (readyState r)
    (status r) (response r) (responseText r) (responseXML r) (responseType r)
    (overrideMimeType r) (mimeOverride r) o (requestHeaders r) (send_fault r)
    (sent r) (aborted r).

Definition set_requestHeaders (h : list (string * string)) (r : request) : request :=
  mkRequest (kind r) (onloadstart r) (onprogress r) (onabort r) (onerror r)
    (onload r) (ontimeout r) (onloadend r) (onreadystatechange r) (readyState r)
    (status r) (response r) (responseText r) (responseXML r) (responseType r)
    (overrideMimeType r) (mimeOverride r) (opened r) h (send_fault r) (sent r)
    (aborted r).

Definition set_sent (n : nat) (r : request) : request :=
  mkRequest (kind r) (onloadstart r) (onprogress r) (onabort r) (onerror r)
    (onload r) (ontimeout r) (onloadend r) (onreadystatechange r) (readyState r)
    (status r) (response r) (responseText r) (responseXML r) (responseType r)
    (overrideMimeType r) (mimeOverride r) (opened r) (requestHeaders r)
    (send_fault r) n (aborted r).

Definition set_aborted (b : bool) (r : request) : request :=
  mkRequest (kind r) (onloadstart r) (onprogress r) (onabort r) (onerror r)
    (onload r) (ontimeout r) (onloadend r) (onreadystatechange r) (readyState r)
    (status r) (response r) (responseText r) (responseXML r) (responseType r)
    (overrideMimeType r) (mimeOverride r) (opened r) (requestHeaders r)
    (send_fault r) (sent r) b.

Definition set_tag (t : option element) (i : item) : item :=
  mkItem (src i) (type i) t.

Definition set_timers (ts : list nat) (next : nat) (g : window) : window :=
  mkWindow (createjs g) (has_XDomainRequest g) (has_XMLHttpRequest g)
    (has_DOMParser g) (has_XMLDOM g) (new_transport g) (resolve g) (location g)
    (location_origin g) (head g) ts next.

Definition on_self (f : loader -> loader) (w : world) : world :=
  mkWorld (f (self w)) (win w) (log w).

Definition on_win (f : window -> window) (w : world) : world :=
  mkWorld (self w) (f (win w)) (log w).

Definition append_log (n : notice) (w : world) : world :=
  mkWorld (self w) (win w) (log w ++ [n]).

(** ** The monad: state that survives a throw *)

Inductive completion (A : Type) : Type :=
| Normal (a : A)
| Throw (e : exn).
Arguments Normal {A} a.
Arguments Throw {A} e.

Definition M (A : Type) : Type := world -> completion A * world.

Definition ret {A : Type} (a : A) : M A := fun w => (Normal a, w).

Definition bind {A B : Type} (m : M A) (k : A -> M B) : M B :=
  fun w => match m w with
           | (Normal a, w') => k a w'
           | (Throw e, w') => (Throw e, w')
           end.

Definition throw {A : Type} (e : exn) : M A := fun w => (Throw e, w).

(** [try { m } catch (e) { h e }] *)
Definition try_catch {A : Type} (m : M A) (h : exn -> M A) : M A :=
  fun w => match m w with
           | (Normal a, w') => (Normal a, w')
           | (Throw e, w') => h e w'
           end.

Definition gets {A : Type} (f : world -> A) : M A := fun w => (Normal (f w), w).

Definition modify (f : world -> world) : M unit := fun w => (Normal tt, f w).

Declare Scope js_scope.
Delimit Scope js_scope with js.
Notation "x <- m ;; k" := (bind m (fun x => k))
  (at level 61, m at next level, right associativity) : js_scope.
Notation "m ;; k" := (bind m (fun _ => k))
  (at level 61, right associativity) : js_scope.
Local Open Scope js_scope.

(** [b && m] used as a statement. *)
Definition when (b : bool) (m : M unit) : M unit := if b then m else ret tt.

Definition this {A : Type} (f : loader -> A) : M A := gets (fun w => f (self w)).

Definition emit (s : sink) (k : notice_kind) (p : payload) : M unit :=
  modify (append_log (Notice s k p)).

(** The world and the log a computation leaves, whatever its completion. *)
Definition after {A : Type} (m : M A) (w : world) : world := snd (m w).

Definition outcome {A : Type} (m : M A) (w : world) : completion A := fst (m w).

(** ** [parseInt]

    As ECMAScript 5 defines it for the radix-less call: leading white space
    and line terminators, a sign, [0x] for hexadecimal, then the longest run
    of digits.  A string is its code units, taken below 256, where the white
    space is the tab, the line feed, the vertical tab, the form feed, the
    carriage return, the space and the no-break space. *)

Definition is_space (c : ascii) : bool :=
  let n := nat_of_ascii c in
  ((9 <=? n) && (n <=? 13) || (n =? 32) || (n =? 160))%nat.

Fixpoint skip_spaces (s : string) : string :=
  match s with
  | String c rest => if is_space c then skip_spaces rest else s
  | EmptyString => s
  end.

(** The value of a digit in the given radix (10 or 16). *)
Definition digit_value (radix : Z) (c : ascii) : option Z :=
  (let n := Z.of_nat (nat_of_ascii c) in
   let d := if (48 <=? n) && (n <=? 57) then Some (n - 48)
            else if (97 <=? n) && (n <=? 122) then Some (n - 87)
            else if (65 <=? n) && (n <=? 90) then Some (n - 55)
            else None in
   match d with
   | Some v => if v <? radix then Some v else None
   | None => None
   end)%Z.

(** The longest prefix of digits, most significant first; [None] when there
    is no digit at all. *)
Fixpoint parse_digits (radix : Z) (acc : option Z) (s : string) : option Z :=
  match s with
  | String c rest =>
      match digit_value radix c with
      | Some d =>
          parse_digits radix
            (Some (match acc with Some a => a * radix + d | None => d end)%Z) rest
      | None => acc
      end
  | EmptyString => acc
  end.

Definition parseInt_string (s : string) : option Z :=
  let s := skip_spaces s in
  let '(sign, s) :=
    match s with
    | String "-" rest => ((-1)%Z, rest)
    | String "+" rest => (1%Z, rest)
    | _ => (1%Z, s)
    end in
  let '(radix, s) :=
    match s with
    | String "0" (String "x" rest) => (16%Z, rest)
    | String "0" (String "X" rest) => (16%Z, rest)
    | _ => (10%Z, s)
    end in
  match parse_digits radix None s with
  | Some n => Some (sign * n)%Z
  | None => None
  end.

(** A number is printed before it is parsed.  A Number is a double: an
    integer from 2^53 on stands for the double nearest to it, ties to the
    even mantissa, given here as mantissa and exponent. *)
Definition nearest_double (a : Z) : Z * Z :=
  (let e := Z.log2 a - 52 in
   let m := Z.shiftr a e in
   let rest := a - Z.shiftl m e in
   let half := Z.shiftl 1 (e - 1) in
   let m := if (half <? rest) || ((rest =? half) && Z.odd m) then m + 1 else m in
   if m =? 2 ^ 53 then (2 ^ 52, e + 1) else (m, e))%Z.

(** The digits JavaScript prints for a double [x]: the fewest that read back
    as [x], and of those the nearest to [x].  [x], [lo] and [hi] are the
    double and the ends of the interval that rounds to it, in quarters;
    the answer is [(s, j)] for the decimal [s * 10^j], searched from the
    largest power of ten [p = 4 * 10^j] down. *)
Fixpoint shortest (x lo hi : Z) (closed : bool) (j : nat) (p : Z) : Z * Z :=
  (let first := (if closed then (lo + p - 1) / p else lo / p + 1) * p in
   let last := (if closed then hi / p else (hi - 1) / p) * p in
   if first <=? last then
     let q := x / p in
     let below := x - q * p in
     let above := p - below in
     let down :=
       if (first <=? q * p) && (q * p + p <=? last)
       then (below <? above) || ((below =? above) && Z.even q)
       else first <=? q * p in
     (if down then q else q + 1, Z.of_nat j)
   else
     match j with
     | O => (x / 4, 0)
     | S j' => shortest x lo hi closed j' (p / 10)
     end)%Z.

Fixpoint leading_digit (fuel : nat) (s : Z) : Z :=
  match fuel with
  | O => s
  | S fuel' => if (s <? 10)%Z then s else leading_digit fuel' (s / 10)%Z
  end.

(** [parseInt] of an integer-valued number.  Below 2^53 the number prints as
    its own digits.  From there on it prints as the digits above, followed
    by zeros while it is below 10^21 and in exponent form, of which
    [parseInt] reads the first digit, from 10^21 on; past the largest double
    it is [Infinity], which has no digit. *)
Definition parseInt_number (n : Z) : option Z :=
  (let a := Z.abs n in
   if a <? 2 ^ 53 then Some n else
   let '(m, e) := nearest_double a in
   if 1024 <? e + 53 then None else
   let x := 4 * Z.shiftl m e in
   let gap := 2 ^ e in
   let digits := Z.log2 a * 31 / 100 + 1 in
   let '(s, j) := shortest x (x - (if m =? 2 ^ 52 then gap else 2 * gap)) (x + 2 * gap)
                    (Z.even m) (Z.to_nat digits) (4 * 10 ^ digits) in
   if s * 10 ^ j <? 10 ^ 21 then Some (Z.sgn n * (s * 10 ^ j))
   else Some (Z.sgn n * leading_digit (Z.to_nat (Z.log2 s)) s))%Z.

(** [parseInt(v)]: the integer whose digits [parseInt] reads from [v] as
    printed; [None] is NaN.  JavaScript answers the Number nearest to that
    integer, which is 404, or 0, exactly when the integer is.  [undefined]
    prints as ["undefined"], which has no digit. *)
Definition parseInt (v : status_value) : option Z :=
  match v with
  | StatusNumber n => parseInt_number n
  | StatusString s => parseInt_string s
  | StatusUndefined => None
  end.

(** ** [FILE_PATTERN] and [_parseURI]

    [path.match(FILE_PATTERN)] as ECMAScript defines matching: the pattern
    is tried at each position from the left; within one attempt the
    alternatives are tried in order, a quantifier takes as much as it can
    and gives back, and whatever follows is the continuation.  A string is
    its code units, taken below 256, where the [i] flag changes nothing for
    this pattern: it has no letter, and no code unit below 256 outside
    [\w] has its upper case inside. *)

Inductive regex : Type :=
| Char (p : ascii -> bool)           (* one code unit of a class *)
| Seq (a b : regex)
| Alt (a b : regex)                  (* [a|b] *)
| Opt (a : regex)                    (* [a?] *)
| Plus (a : regex)                   (* [a+] *)
| Times (n : nat) (a : regex)        (* [a{n}] *)
| Group (i : nat) (a : regex).       (* the [i]-th capturing parenthesis *)

(** The captures so far: [None] is [undefined]. *)
Definition captures : Type := nat -> option string.
Definition no_captures : captures := fun _ => None.
Definition capture (i : nat) (s : string) (c : captures) : captures :=
  fun j => if (j =? i)%nat then Some s else c j.

(** What was read of [s] when [rest] is left of it. *)
Fixpoint consumed (s rest : string) : string :=
  if (String.length s <=? String.length rest)%nat then EmptyString
  else match s with
       | String a s' => String a (consumed s' rest)
       | EmptyString => EmptyString
       end.

Definition cont (R : Type) : Type := string -> captures -> option R.

Definition or_else {R : Type} (a b : option R) : option R :=
  match a with Some x => Some x | None => b end.

(** [a+]: once, then again as long as the last round read something, else
    the continuation.  No more rounds than code units left can read
    something, which bounds [fuel]. *)
Fixpoint repeat_greedy {R : Type} (once : string -> captures -> cont R -> option R)
    (fuel : nat) (s : string) (c : captures) (k : cont R) : option R :=
  match fuel with
  | O => None
  | S fuel' =>
      once s c (fun s' c' =>
        or_else (if (String.length s' <? String.length s)%nat
                 then repeat_greedy once fuel' s' c' k else None)
                (k s' c'))
  end.

Fixpoint repeat_exactly {R : Type} (once : string -> captures -> cont R -> option R)
    (n : nat) (s : string) (c : captures) (k : cont R) : option R :=
  match n with
  | O => k s c
  | S n' => once s c (fun s' c' => repeat_exactly once n' s' c' k)
  end.

Fixpoint exec {R : Type} (r : regex) (s : string) (c : captures) (k : cont R) : option R :=
  match r with
  | Char p =>
      match s with
      | String a s' => if p a then k s' c else None
      | EmptyString => None
      end
  | Seq a b => exec a s c (fun s' c' => exec b s' c' k)
  | Alt a b => or_else (exec a s c k) (exec b s c k)
  | Opt a => or_else (exec a s c k) (k s c)
  | Plus a => repeat_greedy (exec a) (S (String.length s)) s c k
  | Times n a => repeat_exactly (exec a) n s c k
  | Group i a => exec a s c (fun s' c' => k s' (capture i (consumed s s') c'))
  end.

(** The leftmost match: what it read and what it captured. *)
Fixpoint search (r : regex) (s : string) : option (string * captures) :=
  or_else (exec r s no_captures (fun s' c => Some (consumed s s', c)))
          (match s with
           | String _ s' => search r s'
           | EmptyString => None
           end).

(** [\w], white space (whose complement is [\S]) and [[\w\-%]]. *)
Definition word_char (a : ascii) : bool :=
  let n := nat_of_ascii a in
  ((48 <=? n) && (n <=? 57) || (65 <=? n) && (n <=? 90) || (97 <=? n) && (n <=? 122)
   || (n =? 95))%nat.
Definition white_space (a : ascii) : bool :=
  let n := nat_of_ascii a in ((9 <=? n) && (n <=? 13) || (n =? 32) || (n =? 160))%nat.
Definition non_space (a : ascii) : bool := negb (white_space a).
Definition file_char (a : ascii) : bool :=
  word_char a || (a =? "-")%char || (a =? "%")%char.
Definition lit (x : ascii) : regex := Char (fun a => (a =? x)%char).

(** [/(\w+:\/{2})?((?:\w+\.){2}\w+)?(\/?[\S]+\/|\/)?([\w\-%]+)(?:\.)(\w+)?(\?\S+)?/i] *)
Definition FILE_PATTERN : regex :=
  Seq (Opt (Group 1 (Seq (Plus (Char word_char)) (Seq (lit ":") (Times 2 (lit "/"))))))
 (Seq (Opt (Group 2 (Seq (Times 2 (Seq (Plus (Char word_char)) (lit ".")))
                         (Plus (Char word_char)))))
 (Seq (Opt (Group 3 (Alt (Seq (Opt (lit "/")) (Seq (Plus (Char non_space)) (lit "/")))
                         (lit "/"))))
 (Seq (Group 4 (Plus (Char file_char)))
 (Seq (lit ".")
 (Seq (Opt (Group 5 (Plus (Char word_char))))
      (Opt (Group 6 (Seq (lit "?") (Plus (Char non_space)))))))))).

(** The array [match] returns: the match, then [$1] to [$6], a group that
    took no part being [undefined]. *)
Record uri_match : Type := mkMatch {
  m_whole : string;
  m_protocol : option string;
  m_domain : option string;
  m_path : option string;
  m_file : option string;
  m_ext : option string;
  m_params : option string
}.

(** [None] is [null]. *)
Definition _parseURI (path : string) : option uri_match :=
  match path with
  | EmptyString => None
  | _ =>
      match search FILE_PATTERN path with
      | Some (m, c) => Some (mkMatch m (c 1) (c 2) (c 3) (c 4) (c 5) (c 6))
      | None => None
      end
  end.

Section Loaders.

(** [createjs.PreloadJS.isBinary], defined in PreloadJS.js, which is not
    among the sources. *)
Variable isBinary : item_type -> bool.

(** [eval("json=" + v)]: the value assigned to [json], or [None] when the
    evaluation throws. *)
Variable js_eval : value -> option value.

(** ** AbstractLoader *)

Definition _isCanceled : M bool :=
  alive <- gets (fun w => createjs (win w)) ;;
  c <- this canceled ;;
  if negb alive || c then ret true else ret false.

Definition _sendLoadStart : M unit :=
  c <- _isCanceled ;;
  if c then ret tt else
  cb <- this onLoadStart ;;
  when cb (emit Callback LoadStart NoPayload) ;;
  ls <- this _listeners ;;
  when ls (emit Dispatch LoadStart NoPayload).

(** [isNaN(p) || p == Infinity] *)
Definition unusable (p : float) : bool :=
  PrimFloat.is_nan p || PrimFloat.eqb p infinity.

Definition _sendProgress (value : progress_value) : M unit :=
  c <- _isCanceled ;;
  if c then ret tt else
  event <-
    match value with
    | NumberObject v =>
        modify (on_self (set_progress v)) ;;
        p <- this progress ;;
        ret (ProgressEvent p one)
    | Pair l t =>
        modify (on_self (set_progress (l / t)%float)) ;;
        p <- this progress ;;
        when (unusable p) (modify (on_self (set_progress zero))) ;;
        ret (ProgressEvent l t)
    | Primitive v =>
        (* [v.loaded] and [v.total] are undefined; their quotient is NaN *)
        modify (on_self (set_progress nan)) ;;
        p <- this progress ;;
        when (unusable p) (modify (on_self (set_progress zero))) ;;
        ret (ProgressPrimitive v)
    | Undefined => throw (TypeError "Cannot read property 'loaded' of undefined")
    end ;;
  cb <- this onProgress ;;
  when cb (emit Callback Progress event) ;;
  ls <- this _listeners ;;
  when ls (emit Dispatch Progress event).

Definition _sendComplete : M unit :=
  c <- _isCanceled ;;
  if c then ret tt else
  cb <- this onComplete ;;
  when cb (emit Callback Complete NoPayload) ;;
  ls <- this _listeners ;;
  when ls (emit Dispatch Complete NoPayload).

(** [event] is [None] for a call without argument, [Some src] for
    [{source: src}]. *)
Definition _sendError (event : option exn) : M unit :=
  c <- _isCanceled ;;
  if c then ret tt else
  cb <- this onError ;;
  when cb (emit Callback Error (ErrorEvent event)) ;;
  ls <- this _listeners ;;
  when ls (emit Dispatch Error (ErrorEvent event)).

(** ** XHRLoader *)

(** Evaluating [createjs.PreloadJS], which the XHRLoader does wherever it
    needs [proxy], a type constant or [isBinary]: the global must be there. *)
Definition PreloadJS : M unit :=
  alive <- gets (fun w => createjs (win w)) ;;
  if alive then ret tt
  else throw (TypeError "Cannot read property 'PreloadJS' of null").

Definition getResult : M value := this _response.

Definition getRawResult : M value := this _rawResponse.

Definition clearTimeout (h : option nat) : M unit :=
  match h with
  | Some id =>
      modify (on_win (fun g =>
        set_timers (filter (fun t => negb (t =? id)%nat) (timers g)) (next_timer g) g))
  | None => ret tt
  end.

Definition setTimeout : M nat :=
  id <- gets (fun w => next_timer (win w)) ;;
  modify (on_win (fun g => set_timers (id :: timers g) (S id) g)) ;;
  ret id.

(** Reads [this._request] to use it as an object. *)
Definition the_request (what : string) : M request :=
  r <- this _request ;;
  match r with
  | Some r => ret r
  | None => throw (TypeError what)
  end.

Definition update_request (f : request -> request) : M unit :=
  modify (on_self (fun l => set_request (option_map f (_request l)) l)).

Definition _clean : M unit :=
  h <- this _loadTimeout ;;
  clearTimeout h ;;
  _ <- the_request "Cannot set property 'onloadstart' of null" ;;
  update_request (set_hooks None None None None None None None None)
  (* [clearInterval(this._checkLoadInterval)]: the field is never defined
     on an XHRLoader, and clearing [undefined] clears nothing *).

Definition _handleProgress (loaded total : float) : M unit :=
  if PrimFloat.ltb zero loaded && PrimFloat.eqb total zero then ret tt
  else _sendProgress (Pair loaded total).

Definition _handleLoadStart : M unit :=
  h <- this _loadTimeout ;;
  clearTimeout h ;;
  _sendLoadStart.

Definition _handleAbort : M unit := _clean ;; _sendError None.

Definition _handleError : M unit := _clean ;; _sendError None.

Definition _handleTimeout : M unit := _clean ;; _sendError None.

Definition _checkError : M bool :=
  r <- the_request "Cannot read property 'status' of null" ;;
  match parseInt (status r) with
  | Some 404%Z => ret false
  | Some 0%Z => ret false
  | _ => ret true
  end.

Definition is_null (v : value) : bool :=
  match v with Null => true | _ => false end.

Definition read (a : access) : M value :=
  match a with
  | Reads v => ret v
  | Raises e => throw e
  end.

Definition _getResponse : M value :=
  mine <- this _response ;;
  if negb (is_null mine) then ret mine else
  r <- the_request "Cannot read property 'response' of null" ;;
  if negb (is_null (response r)) then ret (response r) else
  txt <- try_catch (read (responseText r)) (fun _ => ret Null) ;;
  if negb (is_null txt) then ret txt else
  xml <- try_catch (read (responseXML r)) (fun _ => ret Null) ;;
  if negb (is_null xml) then ret xml else
  ret Null.

(** The parsed document is kept symbolic: what was parsed, and as which mime
    type ([None] for [loadXML], which takes none). *)
Definition _parseXML (text : value) (mime : string) : M value :=
  dp <- gets (fun w => has_DOMParser (win w)) ;;
  if dp then ret (XmlDocument text (Some mime)) else
  ax <- gets (fun w => has_XMLDOM (win w)) ;;
  if ax then ret (XmlDocument text None)
  else throw (ReferenceError "ActiveXObject is not defined").

(** Reads [this._item.tag] to use it as an element. *)
Definition the_tag (what : string) : M element :=
  i <- this _item ;;
  match tag i with
  | Some el => ret el
  | None => throw (TypeError what)
  end.

Definition update_tag (f : element -> element) : M unit :=
  modify (on_self (fun l => set_item (set_tag (option_map f (tag (_item l))) (_item l)) l)).

Definition _generateTag : M bool :=
  i <- this _item ;;
  PreloadJS ;;
  match type i with
  | IMAGE =>
      _ <- the_tag "Cannot set property 'onload' of undefined" ;;
      update_tag (fun el =>
        mkElement true (Some (src i)) (el_styleSheet el) (el_children el) (el_in_head el)) ;;
      resp <- this _response ;;
      modify (on_self (set_rawResponse resp)) ;;
      modify (on_self (set_response ItemTag)) ;;
      ret false
  | JAVASCRIPT =>
      resp <- this _response ;;
      modify (on_self (set_rawResponse resp)) ;;
      modify (on_self (set_response (ScriptTag resp))) ;;
      ret true
  | CSS =>
      hd <- gets (fun w => head (win w)) ;;
      (if hd then ret tt
       else throw (TypeError "Cannot read property 'appendChild' of undefined")) ;;
      _ <- the_tag "Argument 1 of Node.appendChild is not an object" ;;
      update_tag (fun el =>
        mkElement (el_onload el) (el_src el) (el_styleSheet el) (el_children el) true) ;;
      resp <- this _response ;;
      update_tag (fun el =>
        match el_styleSheet el with
        | Some _ =>
            mkElement (el_onload el) (el_src el) (Some resp) (el_children el) (el_in_head el)
        | None =>
            mkElement (el_onload el) (el_src el) None (el_children el ++ [TextNode resp])
              (el_in_head el)
        end) ;;
      modify (on_self (set_rawResponse resp)) ;;
      modify (on_self (set_response ItemTag)) ;;
      ret true
  | XML =>
      resp <- this _response ;;
      xml <- _parseXML resp "text/xml" ;;
      modify (on_self (set_response xml)) ;;
      ret true
  | SVG =>
      resp <- this _response ;;
      xml <- _parseXML resp "image/svg+xml" ;;
      modify (on_self (set_rawResponse resp)) ;;
      _ <- the_tag "Cannot read property 'appendChild' of undefined" ;;
      update_tag (fun el =>
        mkElement (el_onload el) (el_src el) (el_styleSheet el)
          (el_children el ++ [DocumentElement xml]) (el_in_head el)) ;;
      modify (on_self (set_response ItemTag)) ;;
      ret true
  | JSON =>
      resp <- this _response ;;
      match js_eval resp with
      | None => ret true
      | Some json =>
          modify (on_self (set_rawResponse resp)) ;;
          modify (on_self (set_response json)) ;;
          ret true
      end
  | _ => ret true
  end.

Definition _handleTagReady : M unit := _sendComplete.

Definition _handleLoad : M unit :=
  l <- this loaded ;;
  if l then ret tt else
  modify (on_self (set_loaded true)) ;;
  ok <- _checkError ;;
  if negb ok then _handleError else
  resp <- _getResponse ;;
  modify (on_self (set_response resp)) ;;
  _clean ;;
  isComplete <- _generateTag ;;
  if isComplete then _sendComplete else ret tt.

Definition _handleReadyStateChange : M unit :=
  r <- the_request "Cannot read property 'readyState' of null" ;;
  if (readyState r =? 4)%Z then _handleLoad else ret tt.

(** *** The transport's events and methods *)

Inductive transport_event : Type :=
| OnLoadStart
| OnProgress (loaded total : float)
| OnAbort | OnError | OnTimeout | OnLoad | OnReadyStateChange.

(** [event.loaded] and [event.total]; on an event without them they are
    [undefined], which compares and divides as NaN does. *)
Definition event_loaded (e : transport_event) : float :=
  match e with OnProgress l _ => l | _ => nan end.

Definition event_total (e : transport_event) : float :=
  match e with OnProgress _ t => t | _ => nan end.

(** Calling the proxy [createjs.PreloadJS.proxy(this.h, this)] with [e]. *)
Definition invoke (h : handler) (e : transport_event) : M unit :=
  match h with
  | H_handleLoadStart => _handleLoadStart
  | H_handleProgress => _handleProgress (event_loaded e) (event_total e)
  | H_handleAbort => _handleAbort
  | H_handleError => _handleError
  | H_handleTimeout => _handleTimeout
  | H_handleLoad => _handleLoad
  | H_handleReadyStateChange => _handleReadyStateChange
  end.

Definition hook_of (e : transport_event) (r : request) : option handler :=
  match e with
  | OnLoadStart => onloadstart r
  | OnProgress _ _ => onprogress r
  | OnAbort => onabort r
  | OnError => onerror r
  | OnTimeout => ontimeout r
  | OnLoad => onload r
  | OnReadyStateChange => onreadystatechange r
  end.

(** The transport fires [e]: the hook bound at that moment runs; what it
    throws is reported by the browser and goes no further. *)
Definition deliver (e : transport_event) : M unit :=
  r <- this _request ;;
  match r with
  | None => ret tt
  | Some r =>
      match hook_of e r with
      | Some h => try_catch (invoke h e) (fun _ => ret tt)
      | None => ret tt
      end
  end.

(** [request.send()] *)
Definition send : M unit :=
  r <- the_request "Cannot read property 'send' of null" ;;
  match send_fault r with
  | Some e => throw e
  | None => update_request (fun r => set_sent (S (sent r)) r)
  end.

(** [request.abort()]: a request in flight ends as a network error and fires
    readystatechange and abort before [abort()] returns. *)
Definition abort : M unit :=
  r <- the_request "Cannot read property 'abort' of null" ;;
  update_request (set_aborted true) ;;
  if (0 <? sent r)%nat && negb (readyState r =? 4)%Z then
    update_request (fun r =>
      set_readyState 4 (set_answer (StatusNumber 0) Null (Reads Null) (Reads Null) r)) ;;
    deliver OnReadyStateChange ;;
    deliver OnAbort ;;
    update_request (set_readyState 0)
  else ret tt.

(** *** Public methods *)

Definition cancel : M unit :=
  modify (on_self (set_canceled true)) ;;
  _clean ;;
  abort.

Definition load : M unit :=
  r <- this _request ;;
  match r with
  | None => _handleError
  | Some _ =>
      PreloadJS ;;
      update_request (fun r =>
        set_hooks (Some H_handleLoadStart) (Some H_handleProgress) (Some H_handleAbort)
          (Some H_handleError) (onload r) (Some H_handleTimeout) (onloadend r)
          (onreadystatechange r) r) ;;
      level <- this _xhrLevel ;;
      (if (level =? 1)%Z then
         id <- setTimeout ;;
         modify (on_self (set_loadTimeout (Some id)))
       else ret tt) ;;
      update_request (fun r =>
        set_hooks (onloadstart r) (onprogress r) (onabort r) (onerror r)
          (Some H_handleLoad) (ontimeout r) (onloadend r)
          (Some H_handleReadyStateChange) r) ;;
      try_catch send (fun error => _sendError (Some error))
  end.

Definition item_type_eqb (a b : item_type) : bool :=
  match a, b with
  | IMAGE, IMAGE | JAVASCRIPT, JAVASCRIPT | CSS, CSS | XML, XML | SVG, SVG
  | JSON, JSON | TEXT, TEXT | BINARY, BINARY => true
  | OtherType x, OtherType y => (x =? y)%string
  | _, _ => false
  end.

Definition is_XMLHttpRequest (k : transport_kind) : bool :=
  match k with XMLHttpRequest => true | _ => false end.

(** [new K()] *)
Definition construct (k : transport_kind) : M request :=
  g <- gets win ;;
  match new_transport g k with
  | Some r => ret r
  | None => throw (ReferenceError "the transport cannot be constructed")
  end.

Definition _createXHR (i : item) : M bool :=
  g <- gets win ;;
  let target := resolve g (src i) in
  let host := location g in
  let crossdomain :=
    negb (hostname target =? "")%string
    && (negb (port target =? port host)%string
        || negb (protocol target =? protocol host)%string
        || negb (hostname target =? hostname host)%string) in
  made <-
    (if crossdomain && has_XDomainRequest g then
       r <- construct XDomainRequest ;; ret (Some r)
     else if has_XMLHttpRequest g then
       r <- construct XMLHttpRequest ;; ret (Some r)
     else
       try_catch (r <- construct (ActiveXObject "Msxml2.XMLHTTP.6.0") ;; ret (Some r))
         (fun _ =>
       try_catch (r <- construct (ActiveXObject "Msxml2.XMLHTTP.3.0") ;; ret (Some r))
         (fun _ =>
       try_catch (r <- construct (ActiveXObject "Msxml2.XMLHTTP") ;; ret (Some r))
         (fun _ => ret None)))) ;;
  match made with
  | None => ret false
  | Some req =>
      PreloadJS ;;
      let req :=
        if item_type_eqb (type i) TEXT && overrideMimeType req
        then set_mimeOverride (Some "text/plain; charset=x-user-defined") req
        else req in
      let level := match responseType req with Some _ => 2%Z | None => 1%Z end in
      modify (on_self (set_xhrLevel level)) ;;
      let req := set_opened (Some ("GET", src i, true)) req in
      req <-
        (if crossdomain then
           (* [req instanceof XMLHttpRequest] names the global *)
           if has_XMLHttpRequest g then
             ret (if is_XMLHttpRequest (kind req) && (level =? 1)%Z
                  then set_requestHeaders
                         (requestHeaders req ++ [("Origin", location_origin g)]) req
                  else req)
           else throw (ReferenceError "XMLHttpRequest is not defined")
         else ret req) ;;
      let req :=
        if isBinary (type i) then set_responseType (Some "arraybuffer") req else req in
      modify (on_self (set_request (Some req))) ;;
      ret true
  end.

Definition init (i : item) : M unit :=
  modify (on_self (set_item i)) ;;
  _ <- _createXHR i ;;
  ret tt.

(** The fields of [XHRLoader.prototype] and of [AbstractLoader.prototype]. *)
Definition prototype (file : item) : loader :=
  mkLoader false false zero file false false false false false None None 1 Null Null.

(** [new createjs.XHRLoader(file)] in the window [g]. *)
Definition XHRLoader (file : item) (g : window) : completion unit * world :=
  init file (mkWorld (prototype file) g []).

(** ** What can happen to a loader *)

Inductive action : Type :=
| CallLoad                            (* the user calls [load()] *)
| CallCancel                          (* the user calls [cancel()] *)
| Fires (e : transport_event)         (* the transport fires an event *)
| Calls (h : handler) (e : transport_event)
    (* a proxy made by [load()] is called, whatever the hooks now hold *)
| TimerFires (id : nat)               (* the timer [id] elapses *)
| TagLoads                            (* the item's tag fires its load event *)
| Answer (rs : Z) (st : status_value) (resp : value) (txt xml : access)
    (* the network updates the transport's state and response *).

Definition quietly (m : M unit) : M unit := try_catch m (fun _ => ret tt).

Definition step (a : action) : M unit :=
  match a with
  | CallLoad => load
  | CallCancel => cancel
  | Fires e => deliver e
  | Calls h e => quietly (invoke h e)
  | TimerFires id =>
      pending <- gets (fun w => existsb (Nat.eqb id) (timers (win w))) ;;
      if pending then
        clearTimeout (Some id) ;;
        quietly _handleTimeout
      else ret tt
  | TagLoads =>
      i <- this _item ;;
      match tag i with
      | Some el => if el_onload el then quietly _handleTagReady else ret tt
      | None => ret tt
      end
  | Answer rs st resp txt xml =>
      update_request (fun r => set_readyState rs (set_answer st resp txt xml r))
  end.

Fixpoint run (l : list action) (w : world) : world :=
  match l with
  | [] => w
  | a :: rest => run rest (after (step a) w)
  end.

(** How many notices of a kind left through a sink. *)
Definition is_notice (s : sink) (k : notice_kind) (n : notice) : bool :=
  match via n, s with
  | Callback, Callback | Dispatch, Dispatch =>
      match what n, k with
      | LoadStart, LoadStart | Progress, Progress | Complete, Complete
      | Error, Error => true
      | _, _ => false
      end
  | _, _ => false
  end.

Definition count (s : sink) (k : notice_kind) (l : list notice) : nat :=
  List.length (filter (is_notice s k) l).

Definition expected (installed : bool) : nat := if installed then 1 else 0.

End Loaders.

Arguments count s k l : simpl never.

(** ** Concrete browsers, used to run the model *)

(** Modelled from the spec: [createjs.PreloadJS.isBinary] is defined in
    PreloadJS.js, which is not among the sources; the spec only says that
    binary content types get a raw binary response. *)
Definition binary_types (t : item_type) : bool :=
  match t with BINARY => true | _ => false end.

(** A stand-in for [eval]: text whose brackets do not balance is a syntax
    error, as it is in JavaScript; any other text evaluates to some object. *)
Fixpoint balanced (open : list ascii) (s : string) : bool :=
  match s with
  | EmptyString => match open with [] => true | _ => false end
  | String c rest =>
      if (c =? "{")%char then balanced ("}"%char :: open) rest
      else if (c =? "[")%char then balanced ("]"%char :: open) rest
      else if (c =? "(")%char then balanced (")"%char :: open) rest
      else if (c =? "}")%char || (c =? "]")%char || (c =? ")")%char then
        match open with
        | o :: open' => (c =? o)%char && balanced open' rest
        | [] => false
        end
      else balanced open rest
  end.

Definition eval_balanced (v : value) : option value :=
  match v with
  | Text EmptyString => None
  | Text s => if balanced [] s then Some (Evaluated s) else None
  | Null => Some Null
  | _ => None
  end.

Definition page : address := mkAddress "example.com" "" "http:".

(** A transport fresh from its constructor; [level2] tells whether it has a
    [responseType] property. *)
Definition fresh_transport (level2 : bool) (fault : option exn) (k : transport_kind)
    : option request :=
  Some (mkRequest k None None None None None None None None 0 (StatusNumber 0)
          Null (Reads (Text "")) (Reads Null) (if level2 then Some "" else None)
          level2 None None [] fault 0 false).

(** A browser with XMLHttpRequest level 2. *)
Definition modern : window :=
  mkWindow true false true true false (fresh_transport true None) (fun _ => page)
    page "http://example.com" true [] 1.

(** A browser with XMLHttpRequest level 1, as Internet Explorer 9. *)
Definition legacy : window :=
  mkWindow true true true true true (fresh_transport false None) (fun _ => page)
    page "http://example.com" true [] 1.

(** A level-1 browser whose [send()] throws. *)
Definition legacy_refusing : window :=
  mkWindow true true true true true
    (fresh_transport false (Some (TransportFault "Access is denied.")))
    (fun _ => page) page "http://example.com" true [] 1.

(** A browser with no transport at all. *)
Definition bare : window :=
  mkWindow true false false false false (fun _ => None) (fun _ => page)
    page "http://example.com" true [] 1.

Definition blank_tag : element := mkElement false None None [] false.

(** A loader built by its constructor, with every callback and listener
    installed. *)
Definition listening (file : item) (g : window) : world :=
  on_self (subscribe true true true true true)
    (snd (XHRLoader binary_types file g)).

(** The network answers with a status and a text body. *)
Definition answers (st : Z) (body : string) : action :=
  Answer 4 (StatusNumber st) (Text body) (Reads (Text body)) (Reads Null).

(** Loads in progress, each computed from its constructor: the request is
    sent and the network has answered, but no completion signal has reached
    the loader yet. *)
Definition failed_fetch : world := Eval vm_compute in
  run eval_balanced [CallLoad; answers 404 "Not Found"]
    (listening (mkItem "data.json" JSON None) modern).

Definition text_fetch : world := Eval vm_compute in
  run eval_balanced [CallLoad; answers 200 "hello"]
    (listening (mkItem "hello.txt" TEXT None) modern).

Definition json_fetch : world := Eval vm_compute in
  run eval_balanced [CallLoad; answers 200 "{not valid json"]
    (listening (mkItem "data.json" JSON None) modern).

Definition xml_fetch : world := Eval vm_compute in
  run eval_balanced [CallLoad; answers 200 "<a/>"]
    (listening (mkItem "a.xml" XML None) modern).


(** ** Vocabulary of the statements *)

Local Open Scope list_scope.

(** The guard of [_isCanceled] as a function of the world. *)
Definition suppressed (w : world) : bool :=
  negb (createjs (win w)) || canceled (self w).

(** [0 <= p <= 1] on floats; false on NaN. *)
Definition in_unit_interval (p : float) : bool :=
  PrimFloat.leb zero p && PrimFloat.leb p one.

(** The notices one notification produces, given what is installed. *)
Definition notices (cb ls : bool) (k : notice_kind) (p : payload) : list notice :=
  (if cb then [Notice Callback k p] else []) ++ (if ls then [Notice Dispatch k p] else []).

(** The world with more notices in its log. *)
Definition logged (l : list notice) (w : world) : world :=
  mkWorld (self w) (win w) (log w ++ l).

(** What [_sendProgress] stores for a quotient [q]. *)
Definition clamp (q : float) : float := if unusable q then zero else q.

(** One of the two infinities. *)
Definition is_infinite (p : float) : bool :=
  PrimFloat.eqb p infinity || PrimFloat.eqb p neg_infinity.

(** The status parses to 404 or to 0. *)
Definition failing_status (r : request) : bool :=
  match parseInt (status r) with
  | Some n => (n =? 404)%Z || (n =? 0)%Z
  | None => false
  end.

(** The payload the fallback chain of [_getResponse] ends on: the loader's
    own response, else [response], else [responseText], else [responseXML],
    a getter that throws counting as empty. *)
Definition fetched (mine : value) (r : request) : value :=
  let quiet a := match a with Reads v => v | Raises _ => Null end in
  if negb (is_null mine) then mine
  else if negb (is_null (response r)) then response r
  else if negb (is_null (quiet (responseText r))) then quiet (responseText r)
  else quiet (responseXML r).

(** The world once [clearTimeout(this._loadTimeout)] has run. *)
Definition untimed (w : world) : world :=
  on_win (fun g =>
    set_timers
      (match _loadTimeout (self w) with
       | Some id => filter (fun t => negb (t =? id)%nat) (timers g)
       | None => timers g
       end) (next_timer g) g) w.

(** The world once [_clean] has run on a loader that has a transport. *)
Definition cleaned (w : world) : world :=
  on_self (fun l =>
    set_request
      (option_map (set_hooks None None None None None None None None) (_request l)) l)
    (untimed w).

(** The world in which [_handleLoad] starts to materialize the result: the
    load is marked, the payload is stored and the transport is released. *)
Definition received (w : world) (r : request) : world :=
  cleaned (on_self (set_response (fetched (_response (self w)) r))
             (on_self (set_loaded true) w)).

(** The item's tag is bound to [_handleTagReady]. *)
Definition tag_bound (w : world) : bool :=
  match tag (_item (self w)) with
  | Some el => el_onload el
  | None => false
  end.

Definition has_tag (w : world) : bool :=
  match tag (_item (self w)) with Some _ => true | None => false end.

(** The objects [_generateTag] needs for the item's type are there. *)
Definition materializable (w : world) : bool :=
  let parser := has_DOMParser (win w) || has_XMLDOM (win w) in
  match type (_item (self w)) with
  | IMAGE => has_tag w
  | CSS => head (win w) && has_tag w
  | XML => parser
  | SVG => parser && has_tag w
  | _ => true
  end.

Definition is_image (t : item_type) : bool :=
  match t with IMAGE => true | _ => false end.

(** A property kept by whatever a computation does to the world. *)
Definition preserves (Inv : world -> Prop) {A : Type} (m : M A) : Prop :=
  forall w, Inv w -> Inv (after m w).


(** No timer is pending. *)
Definition no_timer (w : world) : Prop := timers (win w) = [].

(** The load has been handled, the tag is not waiting for its load event,
    and the complete notices are as many as they were. *)
Definition settled (cb ds : nat) (w : world) : Prop :=
  loaded (self w) = true /\ tag_bound w = false
  /\ count Callback Complete (log w) = cb /\ count Dispatch Complete (log w) = ds.

Definition is_CallLoad (a : action) : bool :=
  match a with CallLoad => true | _ => false end.

(** ** Vocabulary of the further properties *)

Definition is_none {A : Type} (o : option A) : bool :=
  match o with None => true | Some _ => false end.

(** Every hook of the transport is [null]. *)
Definition hooks_free (r : request) : bool :=
  is_none (onloadstart r) && is_none (onprogress r) && is_none (onabort r)
  && is_none (onerror r) && is_none (onload r) && is_none (ontimeout r)
  && is_none (onloadend r) && is_none (onreadystatechange r).

(** The only timers pending are the one kept in [_loadTimeout]. *)
Definition only_manual_timer (w : world) : Prop :=
  forall t, In t (timers (win w)) -> _loadTimeout (self w) = Some t.

(** Nothing in the browser can reach the loader: no hook, no timer, no tag
    bound; the log is [l]. *)
Definition deaf (l : list notice) (w : world) : Prop :=
  log w = l /\ timers (win w) = [] /\ tag_bound w = false
  /\ match _request (self w) with
     | Some r => hooks_free r = true
     | None => True
     end.

(** What the browser does, as opposed to what the user calls. *)
Definition is_env (a : action) : bool :=
  match a with
  | Fires _ | TimerFires _ | TagLoads | Answer _ _ _ _ _ => true
  | CallLoad | CallCancel | Calls _ _ => false
  end.

(** The handler [load()] binds to each event of the transport. *)
Definition designated (e : transport_event) : handler :=
  match e with
  | OnLoadStart => H_handleLoadStart
  | OnProgress _ _ => H_handleProgress
  | OnAbort => H_handleAbort
  | OnError => H_handleError
  | OnTimeout => H_handleTimeout
  | OnLoad => H_handleLoad
  | OnReadyStateChange => H_handleReadyStateChange
  end.

(** What reading a property yields when a throwing getter counts as empty. *)
Definition read_or_null (a : access) : value :=
  match a with Reads v => v | Raises _ => Null end.

(** The first value that is not [null], [null] if there is none. *)
Definition first_non_null (l : list value) : value :=
  hd Null (filter (fun v => negb (is_null v)) l).

(** The cross-domain test of [_createXHR]. *)
Definition cross_domain (g : window) (i : item) : bool :=
  let target := resolve g (src i) in
  let host := location g in
  negb (hostname target =? "")%string
  && (negb (port target =? port host)%string
      || negb (protocol target =? protocol host)%string
      || negb (hostname target =? hostname host)%string).

(** *** For [_parseURI] *)

(** Every code unit of [s] is in the class [p]. *)
Fixpoint every (p : ascii -> bool) (s : string) : bool :=
  match s with
  | EmptyString => true
  | String a s' => p a && every p s'
  end.

Fixpoint occurrences (x : ascii) (s : string) : nat :=
  match s with
  | EmptyString => 0
  | String a s' => (if (a =? x)%char then 1 else 0) + occurrences x s'
  end.

Definition dotless (s : string) : bool := every (fun a => negb (a =? ".")%char) s.

(** [s] is empty or starts outside the class [p]. *)
Definition stops (p : ascii -> bool) (s : string) : bool :=
  match s with EmptyString => true | String a _ => negb (p a) end.

Definition or_empty (o : option string) : string :=
  match o with Some s => s | None => EmptyString end.

Definition opt_capture (i : nat) (o : option string) (c : captures) : captures :=
  match o with Some u => capture i u c | None => c end.

(** What each group of [FILE_PATTERN] can hold. *)
Definition is_protocol (u : string) : Prop :=
  exists scheme, u = (scheme ++ "://")%string /\ scheme <> EmptyString
                 /\ every word_char scheme = true.
Definition is_domain (u : string) : Prop :=
  exists a b d, u = (a ++ "." ++ b ++ "." ++ d)%string
    /\ (a <> EmptyString /\ every word_char a = true)
    /\ (b <> EmptyString /\ every word_char b = true)
    /\ (d <> EmptyString /\ every word_char d = true).
Definition is_directory (u : string) : Prop :=
  exists d, u = (d ++ "/")%string /\ every non_space d = true.
Definition is_file (u : string) : Prop := u <> EmptyString /\ every file_char u = true.
Definition is_ext (u : string) : Prop := u <> EmptyString /\ every word_char u = true.
Definition is_params (u : string) : Prop :=
  exists q, u = ("?" ++ q)%string /\ q <> EmptyString /\ every non_space q = true.

(** The matcher read as a relation: [derives r s s' c c'] when [r] can read
    [s] down to [s'], taking the captures from [c] to [c']. *)
Inductive derives : regex -> string -> string -> captures -> captures -> Prop :=
| D_Char p a s c : p a = true -> derives (Char p) (String a s) s c c
| D_Seq a b s s1 s2 c c1 c2 :
    derives a s s1 c c1 -> derives b s1 s2 c1 c2 -> derives (Seq a b) s s2 c c2
| D_AltL a b s s1 c c1 : derives a s s1 c c1 -> derives (Alt a b) s s1 c c1
| D_AltR a b s s1 c c1 : derives b s s1 c c1 -> derives (Alt a b) s s1 c c1
| D_OptSome a s s1 c c1 : derives a s s1 c c1 -> derives (Opt a) s s1 c c1
| D_OptNone a s c : derives (Opt a) s s c c
| D_PlusOne a s s1 c c1 : derives a s s1 c c1 -> derives (Plus a) s s1 c c1
| D_PlusMore a s s1 s2 c c1 c2 :
    derives a s s1 c c1 -> derives (Plus a) s1 s2 c1 c2 -> derives (Plus a) s s2 c c2
| D_TimesO a s c : derives (Times 0 a) s s c c
| D_TimesS n a s s1 s2 c c1 c2 :
    derives a s s1 c c1 -> derives (Times n a) s1 s2 c1 c2 ->
    derives (Times (S n) a) s s2 c c2
| D_Group i a s s1 c c1 :
    derives a s s1 c c1 -> derives (Group i a) s s1 c (capture i (consumed s s1) c1).

(** *** Sample paths, browsers and loads *)

Definition full_url : string := "http://www.example.com/path/to/file.png?x=1".

Definition full_url_match : uri_match :=
  mkMatch full_url (Some "http://") (Some "www.example.com") (Some "/path/to/")
    (Some "file") (Some "png") (Some "?x=1").

Definition elsewhere : address := mkAddress "cdn.example.org" "" "http:".

(** A browser with ActiveX transports only, as Internet Explorer 6, on a
    page that loads from another host. *)
Definition activex_only : window :=
  mkWindow true false false false true
    (fun k => match k with
              | ActiveXObject _ => fresh_transport false None k
              | _ => None
              end)
    (fun _ => elsewhere) page "http://example.com" true [] 1.

(** A level-1 load whose manual timer is pending. *)
Definition pending_load : world := Eval vm_compute in
  run eval_balanced [CallLoad] (listening (mkItem "data.json" JSON None) legacy).

Definition parsed_json_fetch : world := Eval vm_compute in
  run eval_balanced [CallLoad; answers 200 "[1, 2]"]
    (listening (mkItem "data.json" JSON None) modern).

Definition script_fetch : world := Eval vm_compute in
  run eval_balanced [CallLoad; answers 200 "var a = 1;"]
    (listening (mkItem "main.js" JAVASCRIPT None) modern).

Definition css_fetch : world := Eval vm_compute in
  run eval_balanced [CallLoad; answers 200 "a { color: red }"]
    (listening (mkItem "main.css" CSS (Some blank_tag)) modern).

Definition svg_fetch : world := Eval vm_compute in
  run eval_balanced [CallLoad; answers 200 "<svg/>"]
    (listening (mkItem "logo.svg" SVG (Some blank_tag)) modern).

Definition image_fetch : world := Eval vm_compute in
  run eval_balanced [CallLoad; answers 200 "GIF89a"]
    (listening (mkItem "logo.gif" IMAGE (Some blank_tag)) modern).

Definition untagged_image_fetch : world := Eval vm_compute in
  run eval_balanced [CallLoad; answers 200 "GIF89a"]
    (listening (mkItem "logo.gif" IMAGE None) modern).

(** ** The model at work *)

Example parseInt_examples :
  parseInt (StatusNumber 404) = Some 404%Z
  /\ parseInt (StatusString " 404 Not Found") = Some 404%Z
  /\ parseInt (StatusString "0x10") = Some 16%Z
  /\ parseInt (StatusString "-0") = Some 0%Z
  /\ parseInt (StatusString "none") = None
  /\ parseInt StatusUndefined = None
  /\ parseInt (StatusString (String (ascii_of_nat 160) "404")) = Some 404%Z
  /\ parseInt (StatusNumber (2 ^ 53 + 1)) = Some (2 ^ 53)%Z
  /\ parseInt (StatusNumber (2 ^ 60)) = Some 1152921504606847000%Z
  /\ parseInt (StatusNumber (10 ^ 21)) = Some 1%Z
  /\ parseInt (StatusNumber (- (10 ^ 23))) = Some (-1)%Z
  /\ parseInt (StatusNumber (2 ^ 1024)) = None.
Proof. vm_compute. repeat split. Qed.

(** An image is complete only when its tag has loaded. *)
Example image_waits_for_its_tag :
  let w := run eval_balanced [CallLoad; Fires OnLoadStart; answers 200 "bytes"; Fires OnLoad]
             (listening (mkItem "pic.png" IMAGE (Some blank_tag)) modern) in
  log w = notices true true LoadStart NoPayload
  /\ outcome getResult w = Normal ItemTag
  /\ outcome getRawResult w = Normal (Text "bytes")
  /\ log (run eval_balanced [TagLoads] w)
     = notices true true LoadStart NoPayload ++ notices true true Complete NoPayload.
Proof. vm_compute. repeat split. Qed.

(** A JSON body that evaluates: the object is the result, the text the raw
    result, and the second completion signal is not even delivered. *)
Example json_is_evaluated :
  let w := run eval_balanced
             [CallLoad; answers 200 "[1, 2]"; Fires OnReadyStateChange; Fires OnLoad]
             (listening (mkItem "data.json" JSON None) modern) in
  log w = notices true true Complete NoPayload
  /\ outcome getResult w = Normal (Evaluated "[1, 2]")
  /\ outcome getRawResult w = Normal (Text "[1, 2]").
Proof. vm_compute. repeat split. Qed.

(** On a level-1 browser the manual timer reports a timeout. *)
Example emulated_timeout :
  log (run eval_balanced [CallLoad; TimerFires 1]
         (listening (mkItem "data.json" JSON None) legacy))
  = notices true true Error (ErrorEvent None).
Proof. vm_compute. reflexivity. Qed.

(** A style sheet without its tag: [_generateTag] throws and the load ends
    with neither a complete nor an error notification. *)
Example css_needs_its_tag :
  log (run eval_balanced [CallLoad; answers 200 "a {}"; Fires OnLoad]
         (listening (mkItem "style.css" CSS None) modern)) = [].
Proof. vm_compute. reflexivity. Qed.

(** ** Basic facts about the monad *)

Lemma after_bind (A B : Type) (m : M A) (k : A -> M B) (w : world) :
  after (bind m k) w =
  match outcome m w with
  | Normal a => after (k a) (after m w)
  | Throw _ => after m w
  end.
Proof.
  unfold after, outcome, bind. destruct (m w) as [[a | e] w']; reflexivity.
Qed.

Section Preservation.

Variable Inv : world -> Prop.

Lemma preserves_ret (A : Type) (a : A) : preserves Inv (ret a).
Proof. intros w H. exact H. Qed.

Lemma preserves_throw (A : Type) (e : exn) : preserves Inv (@throw A e).
Proof. intros w H. exact H. Qed.

Lemma preserves_gets (A : Type) (f : world -> A) : preserves Inv (gets f).
Proof. intros w H. exact H. Qed.

Lemma preserves_this (A : Type) (f : loader -> A) : preserves Inv (this f).
Proof. intros w H. exact H. Qed.

Lemma preserves_modify (f : world -> world) :
  (forall w, Inv w -> Inv (f w)) -> preserves Inv (modify f).
Proof. intros Hf w H. apply Hf, H. Qed.

Lemma preserves_bind (A B : Type) (m : M A) (k : A -> M B) :
  preserves Inv m -> (forall a, preserves Inv (k a)) -> preserves Inv (bind m k).
Proof.
  intros Hm Hk w H. rewrite after_bind.
  destruct (outcome m w); [apply Hk | ]; apply Hm, H.
Qed.

Lemma preserves_try_catch (A : Type) (m : M A) (h : exn -> M A) :
  preserves Inv m -> (forall e, preserves Inv (h e)) -> preserves Inv (try_catch m h).
Proof.
  intros Hm Hh w H. specialize (Hm w H). unfold after, try_catch in *.
  destruct (m w) as [[a | e] w']; simpl in *; [exact Hm | apply Hh, Hm].
Qed.

Lemma preserves_when (b : bool) (m : M unit) :
  preserves Inv m -> preserves Inv (when b m).
Proof. intros Hm. destruct b; [exact Hm | apply preserves_ret]. Qed.

Lemma preserves_quietly (m : M unit) : preserves Inv m -> preserves Inv (quietly m).
Proof. intros Hm. apply preserves_try_catch; [exact Hm | intro; apply preserves_ret]. Qed.

(** A computation that starts by reading the world may use what it read. *)
Lemma preserves_reading (A B : Type) (f : world -> A) (k : A -> M B) :
  (forall w, Inv w -> Inv (after (k (f w)) w)) -> preserves Inv (bind (gets f) k).
Proof. intros Hk w H. apply Hk, H. Qed.

Lemma preserves_run (ev : value -> option value) (ok : action -> bool) :
  (forall a, ok a = true -> preserves Inv (step ev a)) ->
  forall l w, forallb ok l = true -> Inv w -> Inv (run ev l w).
Proof.
  intros Hstep l. induction l as [| a l IH]; intros w Hl H; simpl in *; [exact H | ].
  apply andb_prop in Hl. destruct Hl as [Ha Hl].
  apply IH; [exact Hl | apply Hstep; assumption].
Qed.

End Preservation.

(** Splits a goal [preserves Inv m] along the syntax of [m]; [leaf] proves
    that a field update keeps the invariant. *)
Ltac preserve_with leaf :=
  repeat first
    [ assumption
    | match goal with H : _ |- preserves _ _ => solve [apply H] end
    | lazymatch goal with
      | |- preserves _ (ret _) => apply preserves_ret
      | |- preserves _ (throw _) => apply preserves_throw
      | |- preserves _ (this _) => apply preserves_this
      | |- preserves _ (gets _) => apply preserves_gets
      | |- preserves _ (when _ _) => apply preserves_when
      | |- preserves _ (quietly _) => apply preserves_quietly
      | |- preserves _ (bind _ _) => apply preserves_bind; [ | intro ]
      | |- preserves _ (try_catch _ _) => apply preserves_try_catch; [ | intro ]
      | |- preserves _ (modify _) => apply preserves_modify; solve [leaf]
      | |- preserves _ (if ?b then _ else _) => destruct b
      | |- preserves _ (match ?x with _ => _ end) => destruct x
      end ].

(** ** The notification primitives *)

Lemma isCanceled_spec (w : world) : _isCanceled w = (Normal (suppressed w), w).
Proof.
  unfold _isCanceled, suppressed, this, gets, bind. simpl.
  destruct (negb (createjs (win w)) || canceled (self w)); reflexivity.
Qed.


Lemma sendProgress_suppressed (v : progress_value) (w : world) :
  suppressed w = true -> _sendProgress v w = (Normal tt, w).
Proof. intros H. unfold _sendProgress, bind. rewrite isCanceled_spec, H. reflexivity. Qed.


Lemma sendError_suppressed (e : option exn) (w : world) :
  suppressed w = true -> _sendError e w = (Normal tt, w).
Proof. intros H. unfold _sendError, bind. rewrite isCanceled_spec, H. reflexivity. Qed.

(** Runs a notification primitive whose guard is known to let it through. *)
Ltac run_primitive H :=
  unfold bind at 1; rewrite isCanceled_spec, H;
  unfold bind, this, gets, when, emit, modify, ret, throw, append_log, logged, notices,
    on_self;
  repeat match goal with
         | |- context [if ?b then _ else _] => destruct b; simpl
         end;
  simpl; rewrite <- ?app_assoc, ?app_nil_r; simpl; try reflexivity.

Lemma sendLoadStart_spec (w : world) :
  suppressed w = false ->
  _sendLoadStart w
  = (Normal tt, logged (notices (onLoadStart (self w)) (_listeners (self w)) LoadStart NoPayload) w).
Proof.
  intros H. unfold _sendLoadStart. destruct w as [l g lg]. run_primitive H.
Qed.

Lemma sendComplete_spec (w : world) :
  suppressed w = false ->
  _sendComplete w
  = (Normal tt, logged (notices (onComplete (self w)) (_listeners (self w)) Complete NoPayload) w).
Proof.
  intros H. unfold _sendComplete. destruct w as [l g lg]. run_primitive H.
Qed.

Lemma sendError_spec (e : option exn) (w : world) :
  suppressed w = false ->
  _sendError e w
  = (Normal tt, logged (notices (onError (self w)) (_listeners (self w)) Error (ErrorEvent e)) w).
Proof.
  intros H. unfold _sendError. destruct w as [l g lg]. run_primitive H.
Qed.

Lemma sendProgress_pair_spec (l t : float) (w : world) :
  suppressed w = false ->
  _sendProgress (Pair l t) w
  = (Normal tt,
     logged (notices (onProgress (self w)) (_listeners (self w)) Progress (ProgressEvent l t))
       (on_self (set_progress (clamp (l / t)%float)) w)).
Proof.
  intros H. unfold _sendProgress, clamp. destruct w as [ld g lg].
  unfold bind at 1; rewrite isCanceled_spec, H.
  unfold bind, this, gets, when, emit, modify, ret, throw, append_log, logged, notices,
    on_self. simpl.
  destruct (unusable (l / t)); simpl;
    destruct (onProgress ld); simpl; destruct (_listeners ld); simpl;
    rewrite <- ?app_assoc, ?app_nil_r; reflexivity.
Qed.

Lemma clamp_usable (q : float) : unusable (clamp q) = false.
Proof.
  unfold clamp. destruct (unusable q) eqn:E; [reflexivity | exact E].
Qed.

Lemma clamp_in_unit_interval (q : float) :
  in_unit_interval (clamp q) = true <-> unusable q = true \/ in_unit_interval q = true.
Proof.
  unfold clamp. destruct (unusable q) eqn:E.
  - split; [left | intros _]; reflexivity.
  - split; [intros H; right; exact H | intros [H | H]; [discriminate | exact H]].
Qed.

(** ** Progress *)

(** C8, as amended: [_sendProgress] with a [{loaded, total}] pair leaves
    [progress] alone when the guard suppresses the call.  Otherwise, for a
    quotient [loaded / total] other than [-Infinity], it stores the quotient,
    or 0 when the quotient is NaN or infinite: the stored number is finite,
    and it lies in [0, 1] exactly when the quotient was replaced or was
    itself in [0, 1]. *)
Theorem sendProgress_stores_clamped_quotient (l t : float) (w : world) :
  let q := (l / t)%float in
  let p := progress (self (after (_sendProgress (Pair l t)) w)) in
  (suppressed w = true -> p = progress (self w))
  /\ (suppressed w = false -> PrimFloat.eqb q neg_infinity = false ->
      p = (if PrimFloat.is_nan q || is_infinite q then zero else q)
      /\ PrimFloat.is_nan p = false /\ is_infinite p = false
      /\ (in_unit_interval p = true <->
          (PrimFloat.is_nan q || is_infinite q = true) \/ in_unit_interval q = true)).
Proof.
  intros q p. subst p. unfold after. split.
  - intros S. rewrite (sendProgress_suppressed (Pair l t) w S). reflexivity.
  - intros S N. rewrite (sendProgress_pair_spec l t w S). simpl. fold q.
    assert (E : PrimFloat.is_nan q || is_infinite q = unusable q).
    { unfold is_infinite, unusable. rewrite N, orb_false_r. reflexivity. }
    rewrite E. split; [reflexivity | ].
    pose proof (clamp_usable q) as U. unfold unusable in U.
    apply orb_false_elim in U. destruct U as [U1 U2].
    split; [exact U1 | ]. split.
    + unfold is_infinite. rewrite U2. unfold clamp.
      destruct (unusable q); [reflexivity | exact N].
    + apply (clamp_in_unit_interval q).
Qed.

(** C8, as stated, fails: a pair with [loaded = 2] and [total = 1] leaves
    [progress] at 2, outside [0, 1]. *)
Lemma sendProgress_exceeds_one :
  let w := listening (mkItem "data.json" JSON None) modern in
  let p := progress (self (after (_sendProgress (Pair 2 1)) w)) in
  suppressed w = false /\ p = 2%float /\ in_unit_interval p = false.
Proof. vm_compute. repeat split. Qed.

Lemma sendProgress_stores_clamped_quotient_witness :
  let w := listening (mkItem "data.json" JSON None) modern in
  let p := progress (self (after (_sendProgress (Pair 1 4)) w)) in
  p = 0.25%float /\ in_unit_interval p = true.
Proof.
  pose proof (proj2 (sendProgress_stores_clamped_quotient 1 4
                       (listening (mkItem "data.json" JSON None) modern))
                eq_refl eq_refl) as (H1 & _ & _ & H2).
  split; [exact H1 | ].
  apply H2. right. reflexivity.
Defined.

(** The guard of [_sendProgress] compares with [Infinity] only: a quotient
    of [-Infinity], as of -1 by 0, is stored as it is. *)
Lemma sendProgress_keeps_negative_infinity (l t : float) (w : world) :
  suppressed w = false -> (l / t)%float = neg_infinity ->
  progress (self (after (_sendProgress (Pair l t)) w)) = neg_infinity.
Proof.
  intros S Q. unfold after. rewrite (sendProgress_pair_spec l t w S). simpl.
  rewrite Q. reflexivity.
Qed.

Example minus_one_by_zero :
  let w := listening (mkItem "data.json" JSON None) modern in
  progress (self (after (_sendProgress (Pair (-1) 0)) w)) = neg_infinity.
Proof. vm_compute. reflexivity. Qed.

(** C9: [_handleProgress] ignores an event with [loaded > 0] and
    [total == 0]: the world is left as it was.  Every other pair goes to
    [_sendProgress] as it came, and the notices that leave the loader carry
    that same [loaded] and [total]. *)
Theorem handleProgress_forwards_unchanged (l t : float) (w : world) :
  let ignored := PrimFloat.ltb zero l && PrimFloat.eqb t zero in
  let w' := after (_handleProgress l t) w in
  (ignored = true -> w' = w)
  /\ (ignored = false ->
      w' = after (_sendProgress (Pair l t)) w
      /\ (suppressed w = false ->
          log w' = log w ++ notices (onProgress (self w)) (_listeners (self w))
                              Progress (ProgressEvent l t)))
  /\ (forall ev, invoke ev H_handleProgress (OnProgress l t) = _handleProgress l t).
Proof.
  intros ignored w'. subst w'. unfold _handleProgress. fold ignored.
  split; [ | split].
  - intros E. rewrite E. reflexivity.
  - intros E. rewrite E. split; [reflexivity | intros S].
    unfold after. rewrite (sendProgress_pair_spec l t w S). reflexivity.
  - reflexivity.
Qed.

Lemma handleProgress_forwards_unchanged_witness :
  let w := listening (mkItem "data.json" JSON None) modern in
  after (_handleProgress 5 0) w = w
  /\ log (after (_handleProgress 5 10) w)
     = [Notice Callback Progress (ProgressEvent 5 10);
        Notice Dispatch Progress (ProgressEvent 5 10)].
Proof.
  split.
  - apply (proj1 (handleProgress_forwards_unchanged 5 0
                    (listening (mkItem "data.json" JSON None) modern))).
    reflexivity.
  - apply (proj2 (proj1 (proj2 (handleProgress_forwards_unchanged 5 10
                    (listening (mkItem "data.json" JSON None) modern))) eq_refl)).
    reflexivity.
Defined.

(** ** Running a method step by step *)

Lemma bind_normal {A B : Type} {m : M A} {k : A -> M B} (w w1 : world) (a : A) :
  m w = (Normal a, w1) -> bind m k w = k a w1.
Proof. intros H. unfold bind. rewrite H. reflexivity. Qed.

Lemma bind_throw {A B : Type} {m : M A} {k : A -> M B} (w w1 : world) (e : exn) :
  m w = (Throw e, w1) -> bind m k w = (Throw e, w1).
Proof. intros H. unfold bind. rewrite H. reflexivity. Qed.

Lemma the_request_some (what : string) (w : world) (r : request) :
  _request (self w) = Some r -> the_request what w = (Normal r, w).
Proof. intros H. unfold the_request, this, gets, bind. rewrite H. reflexivity. Qed.

Lemma the_request_none (what : string) (w : world) :
  _request (self w) = None -> the_request what w = (Throw (TypeError what), w).
Proof. intros H. unfold the_request, this, gets, bind. rewrite H. reflexivity. Qed.

Lemma clearTimeout_spec (w : world) :
  clearTimeout (_loadTimeout (self w)) w = (Normal tt, untimed w).
Proof.
  unfold untimed, clearTimeout. destruct w as [l [] lg]. simpl.
  destruct (_loadTimeout l); reflexivity.
Qed.

Lemma clean_spec (w : world) (r : request) :
  _request (self w) = Some r -> _clean w = (Normal tt, cleaned w).
Proof.
  intros H. unfold _clean.
  rewrite (bind_normal w w (_loadTimeout (self w))) by reflexivity.
  rewrite (bind_normal w (untimed w) tt) by apply clearTimeout_spec.
  rewrite (bind_normal (untimed w) (untimed w) r)
    by (apply the_request_some; exact H).
  reflexivity.
Qed.

Lemma clean_without_transport (w : world) :
  _request (self w) = None ->
  _clean w = (Throw (TypeError "Cannot set property 'onloadstart' of null"), untimed w).
Proof.
  intros H. unfold _clean.
  rewrite (bind_normal w w (_loadTimeout (self w))) by reflexivity.
  rewrite (bind_normal w (untimed w) tt) by apply clearTimeout_spec.
  apply bind_throw. apply the_request_none. exact H.
Qed.

Lemma checkError_spec (w : world) (r : request) :
  _request (self w) = Some r -> _checkError w = (Normal (negb (failing_status r)), w).
Proof.
  intros H. unfold _checkError.
  rewrite (bind_normal w w r) by (apply the_request_some; exact H).
  unfold failing_status. destruct (parseInt (status r)) as [n | ]; [ | reflexivity].
  destruct (Z.eqb_spec n 404) as [-> | N1]; [reflexivity | ].
  destruct (Z.eqb_spec n 0) as [-> | N2]; [reflexivity | ].
  simpl. destruct n as [ | p | p]; try reflexivity; [contradiction | ].
  do 9 (destruct p as [p | p | ]; try reflexivity). contradiction.
Qed.

Lemma getResponse_spec (w : world) (r : request) :
  _request (self w) = Some r ->
  _getResponse w = (Normal (fetched (_response (self w)) r), w).
Proof.
  intros H. unfold _getResponse, fetched.
  rewrite (bind_normal w w (_response (self w))) by reflexivity.
  destruct (negb (is_null (_response (self w)))); [reflexivity | ].
  rewrite (bind_normal w w r) by (apply the_request_some; exact H).
  destruct (negb (is_null (response r))); [reflexivity | ].
  destruct (responseText r) as [v | e]; unfold bind, try_catch, read, ret, throw; simpl;
    [destruct (negb (is_null v)); [reflexivity | ] | ];
    destruct (responseXML r) as [x | e']; simpl; try reflexivity;
    destruct x; reflexivity.
Qed.

(** Opens the world into its fields, so that a method runs by computation. *)
Ltac open_world w :=
  let l := fresh "l" in
  let g := fresh "g" in
  let lg := fresh "lg" in
  destruct w as [l g lg]; destruct l; destruct g; unfold suppressed in *; simpl in *.

Lemma suppressed_false (w : world) :
  suppressed w = false -> createjs (win w) = true /\ canceled (self w) = false.
Proof.
  unfold suppressed. intros H. apply orb_false_elim in H. destruct H as [H1 H2].
  apply negb_false_iff in H1. split; assumption.
Qed.

Lemma PreloadJS_alive (w : world) :
  createjs (win w) = true -> PreloadJS w = (Normal tt, w).
Proof. intros H. unfold PreloadJS, bind, gets. rewrite H. reflexivity. Qed.

(** ** Construction failure *)

(** C3 fails on the code: with no transport, [load()] throws a TypeError out
    of [_clean] and no notice leaves the loader. *)
Theorem load_without_transport_throws (w : world) :
  _request (self w) = None ->
  outcome load w = Throw (TypeError "Cannot set property 'onloadstart' of null")
  /\ log (after load w) = log w.
Proof.
  intros H. unfold outcome, after, load.
  rewrite (bind_normal w w (_request (self w))) by reflexivity.
  rewrite H. unfold _handleError.
  rewrite (bind_throw w (untimed w) _ (clean_without_transport w H)).
  split; reflexivity.
Qed.

Lemma load_without_transport_witness :
  let w := listening (mkItem "data.json" JSON None) bare in
  _request (self w) = None
  /\ outcome load w = Throw (TypeError "Cannot set property 'onloadstart' of null")
  /\ log (after load w) = [].
Proof.
  split; [reflexivity | ].
  apply (load_without_transport_throws (listening (mkItem "data.json" JSON None) bare)).
  reflexivity.
Defined.

(** ** The manual timer *)

Section Timer.

Variable js_eval : value -> option value.

(** C4 fails on the code: when [send()] throws on a level-1 transport,
    [load()] reports the error and leaves the manual timer pending; when the
    timer elapses a second error is reported. *)
Theorem send_failure_leaves_timer_pending (w : world) (r : request) (e : exn) :
  _request (self w) = Some r ->
  _xhrLevel (self w) = 1%Z ->
  send_fault r = Some e ->
  suppressed w = false ->
  let id := next_timer (win w) in
  let w1 := after load w in
  let w2 := after (step js_eval (TimerFires id)) w1 in
  log w1 = log w ++ notices (onError (self w)) (_listeners (self w)) Error (ErrorEvent (Some e))
  /\ timers (win w1) = id :: timers (win w)
  /\ log w2 = log w1 ++ notices (onError (self w)) (_listeners (self w)) Error (ErrorEvent None).
Proof.
  intros Hr Hl Hs Hg. destruct (suppressed_false w Hg) as [Hj Hc]. clear Hg.
  open_world w. destruct r. simpl in *. subst.
  unfold after, load, bind, this, gets, update_request, modify, on_self, setTimeout,
    try_catch, send, the_request, _sendError, _isCanceled, on_win, notices. simpl.
  destruct onError0, _listeners0; simpl; rewrite Nat.eqb_refl; simpl;
    rewrite <- ?app_assoc, ?app_nil_r; repeat split.
Qed.

End Timer.

Lemma send_failure_leaves_timer_pending_witness :
  let w := listening (mkItem "data.json" JSON None) legacy_refusing in
  log (after (step eval_balanced (TimerFires 1)) (after load w))
  = [Notice Callback Error (ErrorEvent (Some (TransportFault "Access is denied.")));
     Notice Dispatch Error (ErrorEvent (Some (TransportFault "Access is denied.")));
     Notice Callback Error (ErrorEvent None);
     Notice Dispatch Error (ErrorEvent None)].
Proof.
  refine (proj2 (proj2 (send_failure_leaves_timer_pending eval_balanced
            (listening (mkItem "data.json" JSON None) legacy_refusing) _ _
            eq_refl eq_refl eq_refl eq_refl))).
Defined.

(** ** Completion *)

Section Completion.

Variable js_eval : value -> option value.

Lemma handleLoad_done (w : world) :
  loaded (self w) = true -> _handleLoad js_eval w = (Normal tt, w).
Proof.
  intros H. unfold _handleLoad.
  rewrite (bind_normal w w (loaded (self w))) by reflexivity.
  rewrite H. reflexivity.
Qed.

(** A first call with a failing status is a call of [_handleError] on the
    marked loader. *)
Lemma handleLoad_failing (w : world) (r : request) :
  loaded (self w) = false -> _request (self w) = Some r -> failing_status r = true ->
  _handleLoad js_eval w = _handleError (on_self (set_loaded true) w).
Proof.
  intros Hl Hr Hs. unfold _handleLoad.
  rewrite (bind_normal w w (loaded (self w))) by reflexivity. rewrite Hl.
  rewrite (bind_normal w (on_self (set_loaded true) w) tt) by reflexivity.
  rewrite (bind_normal (on_self (set_loaded true) w) (on_self (set_loaded true) w)
             (negb (failing_status r))) by (apply checkError_spec; exact Hr).
  rewrite Hs. reflexivity.
Qed.

(** A first call with any other status gets as far as materialization. *)
Lemma handleLoad_passing (w : world) (r : request) :
  loaded (self w) = false -> _request (self w) = Some r -> failing_status r = false ->
  _handleLoad js_eval w
  = bind (_generateTag js_eval) (fun isComplete => if isComplete then _sendComplete else ret tt)
      (received w r).
Proof.
  intros Hl Hr Hs. unfold _handleLoad, received.
  rewrite (bind_normal w w (loaded (self w))) by reflexivity. rewrite Hl.
  rewrite (bind_normal w (on_self (set_loaded true) w) tt) by reflexivity.
  set (w1 := on_self (set_loaded true) w).
  rewrite (bind_normal w1 w1 (negb (failing_status r))) by (apply checkError_spec; exact Hr).
  rewrite Hs. cbn [negb].
  rewrite (bind_normal w1 w1 (fetched (_response (self w1)) r))
    by (apply getResponse_spec; exact Hr).
  set (w2 := on_self (set_response (fetched (_response (self w1)) r)) w1).
  rewrite (bind_normal w1 w2 tt) by reflexivity.
  rewrite (bind_normal w2 (cleaned w2) tt) by (apply (clean_spec w2 r); exact Hr).
  reflexivity.
Qed.

Lemma handleError_spec (w : world) (r : request) :
  _request (self w) = Some r -> suppressed w = false ->
  _handleError w
  = (Normal tt,
     logged (notices (onError (self w)) (_listeners (self w)) Error (ErrorEvent None))
       (cleaned w)).
Proof.
  intros Hr Hg. unfold _handleError.
  rewrite (bind_normal w (cleaned w) tt) by (apply (clean_spec w r); exact Hr).
  apply (sendError_spec None (cleaned w)). exact Hg.
Qed.

(** Case analysis on whatever variable a conditional is stuck on. *)
Ltac crack :=
  repeat (simpl in *; try discriminate;
          match goal with
          | H : context [if ?b then _ else _] |- _ => is_var b; destruct b
          | H : context [match ?x with _ => _ end] |- _ => is_var x; destruct x
          | |- context [if ?b then _ else _] => is_var b; destruct b
          | |- context [match ?x with _ => _ end] => is_var x; destruct x
          | |- context [match el_styleSheet ?x with _ => _ end] => is_var x; destruct x
          end).

(** [_generateTag] touches the tag and the two results, nothing else. *)
Lemma generateTag_spec (w : world) :
  createjs (win w) = true -> materializable w = true ->
  let w1 := after (_generateTag js_eval) w in
  let image := is_image (type (_item (self w))) in
  outcome (_generateTag js_eval) w = Normal (negb image)
  /\ win w1 = win w /\ log w1 = log w
  /\ loaded (self w1) = loaded (self w)
  /\ canceled (self w1) = canceled (self w)
  /\ onComplete (self w1) = onComplete (self w)
  /\ _listeners (self w1) = _listeners (self w)
  /\ _request (self w1) = _request (self w)
  /\ tag_bound w1 = (image || tag_bound w).
Proof.
  intros Hc Hm w1 image. subst w1 image. unfold outcome, after.
  unfold materializable, has_tag, tag_bound in *.
  destruct w as [l g lg]. destruct l. destruct g. destruct _item0 as [sr ty tg].
  simpl in *. subst.
  unfold _generateTag, PreloadJS, _parseXML, the_tag, update_tag, bind, this, gets, modify,
    ret, throw, on_self. simpl.
  destruct ty; simpl in *; try (repeat split; reflexivity);
    try destruct (js_eval _response0); crack; repeat split; reflexivity.
Qed.

(** What a first, passing call leaves behind. *)
Lemma handleLoad_success (w : world) (r : request) :
  loaded (self w) = false -> _request (self w) = Some r -> failing_status r = false ->
  suppressed w = false -> materializable w = true ->
  let w1 := after (_handleLoad js_eval) w in
  let image := is_image (type (_item (self w))) in
  outcome (_handleLoad js_eval) w = Normal tt
  /\ loaded (self w1) = true
  /\ log w1 = log w ++ (if image then []
                        else notices (onComplete (self w)) (_listeners (self w))
                               Complete NoPayload)
  /\ suppressed w1 = false
  /\ onComplete (self w1) = onComplete (self w)
  /\ _listeners (self w1) = _listeners (self w)
  /\ tag_bound w1 = (image || tag_bound w)
  /\ (exists r1, _request (self w1) = Some r1 /\ readyState r1 = readyState r).
Proof.
  intros Hl Hr Hs Hg Hm w1 image. subst w1. unfold outcome, after.
  rewrite (handleLoad_passing w r Hl Hr Hs).
  destruct (generateTag_spec (received w r) (proj1 (suppressed_false w Hg)) Hm)
    as (G1 & G2 & G3 & G4 & G5 & G6 & G7 & G8 & G9).
  unfold outcome, after in *. change (type (_item (self (received w r)))) with
    (type (_item (self w))) in *. fold image in G1, G9.
  unfold bind.
  destruct (_generateTag js_eval (received w r)) as [c w1]. simpl in *. subst c.
  assert (Hg1 : suppressed w1 = false).
  { unfold suppressed. rewrite G2, G5. exact Hg. }
  destruct image; simpl.
  - rewrite app_nil_r. repeat split; try assumption.
    rewrite G8. eexists. split; [rewrite Hr; reflexivity | reflexivity].
  - rewrite (sendComplete_spec w1 Hg1). simpl. rewrite G3, G6, G7.
    repeat split; try assumption.
    rewrite G8. eexists. split; [rewrite Hr; reflexivity | reflexivity].
Qed.

Lemma count_app (s : sink) (k : notice_kind) (l1 l2 : list notice) :
  count s k (l1 ++ l2) = count s k l1 + count s k l2.
Proof. unfold count. rewrite filter_app, length_app. reflexivity. Qed.

Lemma count_notices_callback (cb ls : bool) (k : notice_kind) (p : payload) :
  count Callback k (notices cb ls k p) = expected cb.
Proof. destruct cb, ls, k; reflexivity. Qed.

Lemma count_notices_dispatch (cb ls : bool) (k : notice_kind) (p : payload) :
  count Dispatch k (notices cb ls k p) = expected ls.
Proof. destruct cb, ls, k; reflexivity. Qed.

Lemma after_quietly (m : M unit) (w : world) : after (quietly m) w = after m w.
Proof.
  unfold after, quietly, try_catch. destruct (m w) as [[[] | e] w1]; reflexivity.
Qed.

Lemma handleReadyStateChange_done (w : world) (r : request) :
  _request (self w) = Some r -> readyState r = 4%Z ->
  _handleReadyStateChange js_eval w = _handleLoad js_eval w.
Proof.
  intros Hr H4. unfold _handleReadyStateChange.
  rewrite (bind_normal w w r) by (apply the_request_some; exact Hr).
  rewrite H4. reflexivity.
Qed.

Lemma tag_ready_completes (w : world) :
  tag_bound w = true -> suppressed w = false ->
  after (step js_eval TagLoads) w
  = logged (notices (onComplete (self w)) (_listeners (self w)) Complete NoPayload) w.
Proof.
  intros Hb Hg. unfold step, tag_bound in *.
  unfold after. rewrite (bind_normal w w (_item (self w))) by reflexivity.
  destruct (tag (_item (self w))) as [el | ]; [ | discriminate].
  rewrite Hb. fold (after (quietly _handleTagReady) w). rewrite after_quietly.
  unfold after, _handleTagReady. rewrite (sendComplete_spec w Hg). reflexivity.
Qed.

(** C1: when both the load event and a ready-state change with ready state 4
    reach their handlers, in either order, the second call finds [loaded]
    set and leaves the world as the first left it.  A successful load so
    produces one complete notification: one call of [onComplete] if it is
    installed, one dispatch if there are listeners; for an image that is
    when the tag has fired its own load event. *)
Theorem redundant_completion_signals_complete_once
    (w : world) (r : request) (load_first : bool) (e1 e2 : transport_event) :
  loaded (self w) = false -> _request (self w) = Some r -> readyState r = 4%Z ->
  failing_status r = false -> suppressed w = false -> materializable w = true ->
  let first := if load_first then H_handleLoad else H_handleReadyStateChange in
  let second := if load_first then H_handleReadyStateChange else H_handleLoad in
  let w1 := after (step js_eval (Calls first e1)) w in
  let w2 := after (step js_eval (Calls second e2)) w1 in
  let w3 := run js_eval (if is_image (type (_item (self w))) then [TagLoads] else []) w2 in
  w2 = w1
  /\ loaded (self w1) = true
  /\ count Callback Complete (log w3)
     = count Callback Complete (log w) + expected (onComplete (self w))
  /\ count Dispatch Complete (log w3)
     = count Dispatch Complete (log w) + expected (_listeners (self w)).
Proof.
  intros Hl Hr H4 Hs Hg Hm first second w1 w2 w3.
  assert (E1 : w1 = after (_handleLoad js_eval) w).
  { subst w1 first. unfold step. rewrite after_quietly.
    destruct load_first; simpl; [reflexivity | ].
    unfold after. rewrite (handleReadyStateChange_done w r Hr H4). reflexivity. }
  destruct (handleLoad_success w r Hl Hr Hs Hg Hm)
    as (_ & S2 & S3 & S4 & S5 & S6 & S7 & r1 & S8 & S9).
  rewrite <- E1 in *. clearbody w1.
  assert (E2 : w2 = w1).
  { subst w2 second. unfold step. rewrite after_quietly.
    destruct load_first; simpl; unfold after.
    - rewrite (handleReadyStateChange_done w1 r1 S8) by (rewrite S9; exact H4).
      rewrite (handleLoad_done w1 S2). reflexivity.
    - rewrite (handleLoad_done w1 S2). reflexivity. }
  split; [exact E2 | split; [exact S2 | ]].
  subst w3. rewrite E2. clear E2 w2.
  destruct (is_image (type (_item (self w)))); simpl in S3, S7.
  - change (run js_eval [TagLoads] w1) with (after (step js_eval TagLoads) w1).
    rewrite (tag_ready_completes w1 S7 S4). unfold logged. simpl.
    rewrite S3, S5, S6, app_nil_r, !count_app.
    rewrite count_notices_callback, count_notices_dispatch. split; reflexivity.
  - change (run js_eval [] w1) with w1. rewrite S3, !count_app.
    rewrite count_notices_callback, count_notices_dispatch. split; reflexivity.
Qed.

(** ** Materialized and raw results *)

(** C6, as amended: a JSON load whose body does not evaluate still completes
    (one complete notification, no error); [getResult] then returns the
    fetched text, and [getRawResult] returns what it returned before the
    load, which is [null] on a loader that has not materialized anything. *)
Theorem unparsable_json_keeps_text (w : world) (r : request) :
  type (_item (self w)) = JSON -> loaded (self w) = false ->
  _request (self w) = Some r -> failing_status r = false -> suppressed w = false ->
  js_eval (fetched (_response (self w)) r) = None ->
  let body := fetched (_response (self w)) r in
  let w1 := after (_handleLoad js_eval) w in
  log w1 = log w ++ notices (onComplete (self w)) (_listeners (self w)) Complete NoPayload
  /\ outcome getResult w1 = Normal body
  /\ outcome getRawResult w1 = Normal (_rawResponse (self w)).
Proof.
  intros Ht Hl Hr Hs Hg He body w1. subst w1. unfold after.
  rewrite (handleLoad_passing w r Hl Hr Hs).
  set (w0 := received w r).
  unfold _generateTag.
  rewrite (bind_normal w0 w0 true).
  - rewrite (sendComplete_spec w0 Hg). repeat split.
  - rewrite (bind_normal w0 w0 (_item (self w0))) by reflexivity.
    rewrite (bind_normal w0 w0 tt)
      by (apply PreloadJS_alive; exact (proj1 (suppressed_false w Hg))).
    change (type (_item (self w0))) with (type (_item (self w))). rewrite Ht.
    rewrite (bind_normal w0 w0 (_response (self w0))) by reflexivity.
    change (_response (self w0)) with (fetched (_response (self w)) r).
    rewrite He. reflexivity.
Qed.

(** C6, as stated, fails: after the load of the body [{not valid json] the raw
    result is [null], not the text. *)
Lemma unparsable_json_raw_result_is_null :
  let body := "{not valid json" in
  let w := run eval_balanced [CallLoad; answers 200 body; Fires OnLoad]
             (listening (mkItem "data.json" JSON None) modern) in
  eval_balanced (Text body) = None
  /\ log w = [Notice Callback Complete NoPayload; Notice Dispatch Complete NoPayload]
  /\ outcome getResult w = Normal (Text body)
  /\ outcome getRawResult w = Normal Null
  /\ outcome getRawResult w <> Normal (Text body).
Proof. vm_compute. repeat split. discriminate. Qed.

(** C7 fails on the code: the XML branch of [_generateTag] replaces the
    response with the parsed document and does not store the payload, so the
    raw result stays what it was ([null] on a fresh loader). *)
Theorem xml_branch_drops_raw_result (w : world) (r : request) :
  type (_item (self w)) = XML -> loaded (self w) = false ->
  _request (self w) = Some r -> failing_status r = false -> suppressed w = false ->
  has_DOMParser (win w) = true ->
  let body := fetched (_response (self w)) r in
  let w1 := after (_handleLoad js_eval) w in
  log w1 = log w ++ notices (onComplete (self w)) (_listeners (self w)) Complete NoPayload
  /\ outcome getResult w1 = Normal (XmlDocument body (Some "text/xml"))
  /\ outcome getRawResult w1 = Normal (_rawResponse (self w)).
Proof.
  intros Ht Hl Hr Hs Hg Hp body w1. subst w1. unfold after.
  rewrite (handleLoad_passing w r Hl Hr Hs).
  set (w0 := received w r).
  set (w2 := on_self (set_response (XmlDocument body (Some "text/xml"))) w0).
  unfold _generateTag.
  rewrite (bind_normal w0 w2 true).
  - rewrite (sendComplete_spec w2 Hg). repeat split.
  - rewrite (bind_normal w0 w0 (_item (self w0))) by reflexivity.
    rewrite (bind_normal w0 w0 tt)
      by (apply PreloadJS_alive; exact (proj1 (suppressed_false w Hg))).
    change (type (_item (self w0))) with (type (_item (self w))). rewrite Ht.
    rewrite (bind_normal w0 w0 (_response (self w0))) by reflexivity.
    change (_response (self w0)) with body.
    rewrite (bind_normal w0 w0 (XmlDocument body (Some "text/xml"))).
    + reflexivity.
    + unfold _parseXML. rewrite (bind_normal w0 w0 (has_DOMParser (win w0))) by reflexivity.
      change (has_DOMParser (win w0)) with (has_DOMParser (win w)). rewrite Hp.
      reflexivity.
Qed.

(** Every other branch that changes the response stores the payload first. *)
Lemma other_branches_keep_raw (w : world) (b : bool) :
  type (_item (self w)) <> XML ->
  outcome (_generateTag js_eval) w = Normal b ->
  let w1 := after (_generateTag js_eval) w in
  _response (self w1) <> _response (self w) ->
  _rawResponse (self w1) = _response (self w).
Proof.
  unfold outcome, after. destruct w as [l g lg]. destruct l. destruct g.
  destruct _item0 as [sr ty tg]. simpl.
  unfold _generateTag, PreloadJS, _parseXML, the_tag, update_tag, bind, this, gets, modify,
    ret, throw, on_self. simpl.
  intros Hx. destruct createjs0; [ | discriminate]. destruct ty; simpl; try contradiction;
    try destruct (js_eval _response0);
    crack; intros; try reflexivity; try discriminate; try contradiction.
Qed.

End Completion.

(** ** Invariants of the event plumbing

    Whatever the invariant, the handlers, the transport and the public
    methods keep it as soon as the few places that could break it do. *)

Section Plumbing.

Variable js_eval : value -> option value.
Variable Inv : world -> Prop.

Hypothesis sendLoadStart_ok : preserves Inv _sendLoadStart.
Hypothesis sendProgress_ok : forall v, preserves Inv (_sendProgress v).
Hypothesis sendError_ok : forall e, preserves Inv (_sendError e).
Hypothesis handleLoad_ok : preserves Inv (_handleLoad js_eval).
Hypothesis clearTimeout_ok : forall h, preserves Inv (clearTimeout h).
Hypothesis update_request_ok : forall f, preserves Inv (update_request f).
Hypothesis set_canceled_ok : preserves Inv (modify (on_self (set_canceled true))).
Hypothesis tagLoads_ok : preserves Inv (step js_eval TagLoads).

Ltac plumb := preserve_with ltac:(fail).

Lemma the_request_keeps (what : string) : preserves Inv (the_request what).
Proof. unfold the_request. plumb. Qed.

Lemma PreloadJS_keeps : preserves Inv PreloadJS.
Proof. unfold PreloadJS. plumb. Qed.

Lemma clean_keeps : preserves Inv _clean.
Proof. pose proof the_request_keeps. unfold _clean. plumb. Qed.

Lemma handleProgress_keeps (l t : float) : preserves Inv (_handleProgress l t).
Proof. unfold _handleProgress. plumb. Qed.

Lemma handleLoadStart_keeps : preserves Inv _handleLoadStart.
Proof. unfold _handleLoadStart. plumb. Qed.

Lemma handleError_keeps : preserves Inv _handleError.
Proof. pose proof clean_keeps. unfold _handleError. plumb. Qed.

Lemma handleReadyStateChange_keeps : preserves Inv (_handleReadyStateChange js_eval).
Proof. pose proof the_request_keeps. unfold _handleReadyStateChange. plumb. Qed.

Lemma invoke_keeps (h : handler) (e : transport_event) :
  preserves Inv (invoke js_eval h e).
Proof.
  pose proof handleError_keeps. pose proof handleLoadStart_keeps.
  pose proof handleProgress_keeps. pose proof handleReadyStateChange_keeps.
  destruct h; simpl; unfold _handleAbort, _handleTimeout; fold _handleError; plumb.
Qed.

Lemma deliver_keeps (e : transport_event) : preserves Inv (deliver js_eval e).
Proof. pose proof invoke_keeps. unfold deliver. plumb. Qed.

Lemma send_keeps : preserves Inv send.
Proof. pose proof the_request_keeps. unfold send. plumb. Qed.

Lemma abort_keeps : preserves Inv (abort js_eval).
Proof. pose proof the_request_keeps. pose proof deliver_keeps. unfold abort. plumb. Qed.

Lemma cancel_keeps : preserves Inv (cancel js_eval).
Proof. pose proof clean_keeps. pose proof abort_keeps. unfold cancel. plumb. Qed.

(** [load()] keeps the invariant if installing the timer does. *)
Lemma load_keeps :
  preserves Inv (bind setTimeout (fun id => modify (on_self (set_loadTimeout (Some id))))) ->
  preserves Inv load.
Proof.
  intros Ht. pose proof handleError_keeps. pose proof send_keeps.
  pose proof PreloadJS_keeps. unfold load. plumb.
Qed.

Lemma step_keeps (a : action) :
  (is_CallLoad a = true -> preserves Inv load) -> preserves Inv (step js_eval a).
Proof.
  intros Hload. pose proof cancel_keeps. pose proof deliver_keeps.
  pose proof invoke_keeps. pose proof handleError_keeps.
  pose proof handleError_keeps as Htimeout.
  change _handleError with _handleTimeout in Htimeout.
  destruct a; unfold step; try (apply Hload; reflexivity); plumb.
Qed.

End Plumbing.

(** *** Methods that only read *)

Lemma preserves_pure (Inv : world -> Prop) {A : Type} (m : M A) :
  (forall w, after m w = w) -> preserves Inv m.
Proof. intros H w Hw. rewrite H. exact Hw. Qed.

Lemma checkError_pure (w : world) : after _checkError w = w.
Proof.
  destruct (_request (self w)) as [r | ] eqn:E.
  - unfold after. rewrite (checkError_spec w r E). reflexivity.
  - unfold after, _checkError.
    rewrite (bind_throw w w _ (the_request_none _ w E)). reflexivity.
Qed.

Lemma getResponse_pure (w : world) : after _getResponse w = w.
Proof.
  destruct (_request (self w)) as [r | ] eqn:E.
  - unfold after. rewrite (getResponse_spec w r E). reflexivity.
  - unfold after, _getResponse.
    rewrite (bind_normal w w (_response (self w))) by reflexivity.
    destruct (negb (is_null (_response (self w)))); [reflexivity | ].
    rewrite (bind_throw w w _ (the_request_none _ w E)). reflexivity.
Qed.

Lemma isCanceled_pure (w : world) : after _isCanceled w = w.
Proof. unfold after. rewrite isCanceled_spec. reflexivity. Qed.

(** *** Once suppressed, nothing is logged *)

Section Silenced.

Variable js_eval : value -> option value.
Variable l0 : list notice.















End Silenced.



(** *** With no timer pending, none appears unless [load()] is called *)

Section NoTimer.

Variable js_eval : value -> option value.

Ltac timer_leaf :=
  let w := fresh "w" in
  let H := fresh "H" in
  intros w H; unfold no_timer in *; simpl; first [exact H | rewrite H; reflexivity].

Lemma isCanceled_untimed : preserves no_timer _isCanceled.
Proof. apply preserves_pure, isCanceled_pure. Qed.

Lemma sendLoadStart_untimed : preserves no_timer _sendLoadStart.
Proof.
  pose proof isCanceled_untimed. unfold _sendLoadStart, emit. preserve_with timer_leaf.
Qed.

Lemma sendProgress_untimed (v : progress_value) : preserves no_timer (_sendProgress v).
Proof.
  pose proof isCanceled_untimed. unfold _sendProgress, emit. preserve_with timer_leaf.
Qed.

Lemma sendComplete_untimed : preserves no_timer _sendComplete.
Proof.
  pose proof isCanceled_untimed. unfold _sendComplete, emit. preserve_with timer_leaf.
Qed.

Lemma sendError_untimed (e : option exn) : preserves no_timer (_sendError e).
Proof.
  pose proof isCanceled_untimed. unfold _sendError, emit. preserve_with timer_leaf.
Qed.

Lemma clearTimeout_untimed (h : option nat) : preserves no_timer (clearTimeout h).
Proof. unfold clearTimeout. preserve_with timer_leaf. Qed.

Lemma update_request_untimed (f : request -> request) :
  preserves no_timer (update_request f).
Proof. unfold update_request. preserve_with timer_leaf. Qed.

Lemma set_canceled_untimed : preserves no_timer (modify (on_self (set_canceled true))).
Proof. preserve_with timer_leaf. Qed.

Lemma generateTag_untimed : preserves no_timer (_generateTag js_eval).
Proof.
  unfold _generateTag, PreloadJS, _parseXML, the_tag, update_tag.
  preserve_with timer_leaf.
Qed.

Lemma handleLoad_untimed : preserves no_timer (_handleLoad js_eval).
Proof.
  pose proof (preserves_pure no_timer _checkError checkError_pure).
  pose proof (preserves_pure no_timer _getResponse getResponse_pure).
  pose proof generateTag_untimed. pose proof sendComplete_untimed.
  pose proof (clean_keeps no_timer clearTimeout_untimed update_request_untimed).
  pose proof (handleError_keeps no_timer sendError_untimed clearTimeout_untimed
                update_request_untimed).
  unfold _handleLoad. preserve_with timer_leaf.
Qed.

Lemma tagLoads_untimed : preserves no_timer (step js_eval TagLoads).
Proof.
  pose proof sendComplete_untimed. unfold step, _handleTagReady.
  preserve_with timer_leaf.
Qed.

Lemma step_untimed (a : action) :
  is_CallLoad a = false -> preserves no_timer (step js_eval a).
Proof.
  intros H.
  apply (step_keeps js_eval no_timer sendLoadStart_untimed sendProgress_untimed
           sendError_untimed handleLoad_untimed clearTimeout_untimed update_request_untimed
           set_canceled_untimed tagLoads_untimed).
  rewrite H. discriminate.
Qed.

(** An elapsing timer that is not pending does nothing. *)
Lemma stale_timer (id : nat) (w : world) :
  no_timer w -> step js_eval (TimerFires id) w = (Normal tt, w).
Proof.
  intros H. unfold step, bind, gets. simpl. rewrite H. reflexivity.
Qed.

End NoTimer.

(** *** Once the load is handled, no complete notification is added *)

Section Settled.

Variable js_eval : value -> option value.
Variables cb ds : nat.

Ltac settled_leaf :=
  let w := fresh "w" in
  let H1 := fresh "H" in
  let H2 := fresh "H" in
  let H3 := fresh "H" in
  let H4 := fresh "H" in
  intros w (H1 & H2 & H3 & H4); unfold settled, tag_bound in *; simpl;
  repeat split; assumption.

Lemma emit_settled (s : sink) (k : notice_kind) (p : payload) :
  k <> Complete -> preserves (settled cb ds) (emit s k p).
Proof.
  intros Hk. unfold emit. apply preserves_modify.
  intros w (H1 & H2 & H3 & H4). unfold settled, tag_bound in *. simpl.
  rewrite !count_app, H3, H4.
  repeat split; try assumption;
    destruct k, s; try contradiction; unfold count; simpl; apply Nat.add_0_r.
Qed.

Lemma isCanceled_settled : preserves (settled cb ds) _isCanceled.
Proof. apply preserves_pure, isCanceled_pure. Qed.

Lemma sendLoadStart_settled : preserves (settled cb ds) _sendLoadStart.
Proof.
  pose proof isCanceled_settled.
  pose proof (fun s => emit_settled s LoadStart NoPayload ltac:(discriminate)).
  unfold _sendLoadStart. preserve_with settled_leaf.
Qed.

Lemma sendProgress_settled (v : progress_value) :
  preserves (settled cb ds) (_sendProgress v).
Proof.
  pose proof isCanceled_settled.
  pose proof (fun s p => emit_settled s Progress p ltac:(discriminate)).
  unfold _sendProgress. preserve_with settled_leaf.
Qed.

Lemma sendError_settled (e : option exn) : preserves (settled cb ds) (_sendError e).
Proof.
  pose proof isCanceled_settled.
  pose proof (fun s p => emit_settled s Error p ltac:(discriminate)).
  unfold _sendError. preserve_with settled_leaf.
Qed.

Lemma clearTimeout_settled (h : option nat) : preserves (settled cb ds) (clearTimeout h).
Proof. unfold clearTimeout. preserve_with settled_leaf. Qed.

Lemma update_request_settled (f : request -> request) :
  preserves (settled cb ds) (update_request f).
Proof. unfold update_request. preserve_with settled_leaf. Qed.

Lemma set_canceled_settled :
  preserves (settled cb ds) (modify (on_self (set_canceled true))).
Proof. preserve_with settled_leaf. Qed.

Lemma handleLoad_settled : preserves (settled cb ds) (_handleLoad js_eval).
Proof.
  intros w H. unfold after. rewrite (handleLoad_done js_eval w (proj1 H)). exact H.
Qed.

Lemma tagLoads_settled : preserves (settled cb ds) (step js_eval TagLoads).
Proof.
  unfold step. apply preserves_reading. intros w H.
  pose proof H as (_ & H2 & _). unfold tag_bound in H2.
  destruct (tag (_item (self w))) as [el | ] eqn:E; [rewrite H2 | ]; exact H.
Qed.

Lemma load_settled : preserves (settled cb ds) load.
Proof.
  apply (load_keeps (settled cb ds) sendError_settled clearTimeout_settled
           update_request_settled).
  unfold setTimeout. preserve_with settled_leaf.
Qed.

Lemma step_settled (a : action) : preserves (settled cb ds) (step js_eval a).
Proof.
  apply (step_keeps js_eval (settled cb ds) sendLoadStart_settled sendProgress_settled
           sendError_settled handleLoad_settled clearTimeout_settled update_request_settled
           set_canceled_settled tagLoads_settled).
  intros _. apply load_settled.
Qed.

End Settled.

(** ** Load-start and the manual timer *)

(** What [load()] leaves on a level-1 transport, whether or not [send()]
    throws. *)
Lemma load_on_level_1 (w : world) (r : request) :
  _request (self w) = Some r -> _xhrLevel (self w) = 1%Z -> createjs (win w) = true ->
  let w1 := after load w in
  timers (win w1) = next_timer (win w) :: timers (win w)
  /\ _loadTimeout (self w1) = Some (next_timer (win w))
  /\ (exists r1, _request (self w1) = Some r1 /\ onloadstart r1 = Some H_handleLoadStart)
  /\ createjs (win w1) = true /\ canceled (self w1) = canceled (self w)
  /\ onError (self w1) = onError (self w) /\ _listeners (self w1) = _listeners (self w).
Proof.
  intros Hr Hl Hc w1. subst w1. destruct w as [l g lg]. destruct l. destruct g. destruct r.
  simpl in *. subst.
  unfold after, load, PreloadJS, setTimeout, send, the_request, update_request, _sendError,
    _isCanceled, try_catch, bind, this, gets, modify, ret, throw, when, emit, on_self,
    on_win. simpl.
  destruct send_fault0; simpl;
    try (destruct canceled0; simpl; try destruct onError0; simpl;
         try destruct _listeners0; simpl);
    repeat split; eexists; split; reflexivity.
Qed.

(** C10, as amended: on a level-1 transport, [load()] called while no timer
    is pending leaves, where the library is there, one timer pending, the
    one kept in [_loadTimeout].  While it is pending its elapsing is reported
    as an error; the load-start event clears it, and from then until
    [load()] is called again no timer is pending and an elapsing timer
    changes nothing. *)
Theorem loadstart_clears_manual_timer
    (js_eval : value -> option value) (w : world) (r : request) :
  _request (self w) = Some r -> _xhrLevel (self w) = 1%Z -> timers (win w) = [] ->
  let id := next_timer (win w) in
  let w1 := after load w in
  let w2 := after (step js_eval (Fires OnLoadStart)) w1 in
  (createjs (win w) = true -> timers (win w1) = [id] /\ _loadTimeout (self w1) = Some id)
  /\ (suppressed w = false ->
      log (after (step js_eval (TimerFires id)) w1)
      = log w1 ++ notices (onError (self w)) (_listeners (self w)) Error (ErrorEvent None))
  /\ timers (win w2) = []
  /\ (forall l id',
      forallb (fun a => negb (is_CallLoad a)) l = true ->
      let w3 := run js_eval l w2 in
      timers (win w3) = [] /\ step js_eval (TimerFires id') w3 = (Normal tt, w3)).
Proof.
  intros Hr Hl Ht id w1 w2.
  assert (L : createjs (win w) = true ->
              timers (win w1) = [id] /\ _loadTimeout (self w1) = Some id
              /\ (exists r1, _request (self w1) = Some r1
                             /\ onloadstart r1 = Some H_handleLoadStart)
              /\ createjs (win w1) = true /\ canceled (self w1) = canceled (self w)
              /\ onError (self w1) = onError (self w)
              /\ _listeners (self w1) = _listeners (self w)).
  { intros Hj. pose proof (load_on_level_1 w r Hr Hl Hj) as L. rewrite Ht in L. exact L. }
  assert (T2 : timers (win w2) = []).
  { destruct (createjs (win w)) eqn:Hj.
    - destruct (L eq_refl) as (L1 & L2 & (r1 & L3 & L4) & _).
      subst w2. clearbody w1. clear L.
      destruct w1 as [l1 g1 lg1]. destruct l1. destruct g1. destruct r1.
      simpl in *. subst.
      unfold after, step, deliver, try_catch, invoke, hook_of, _handleLoadStart,
        _sendLoadStart, _isCanceled, clearTimeout, bind, this, gets, modify, on_win, when,
        emit, ret. simpl.
      rewrite Nat.eqb_refl. simpl.
      destruct createjs0, canceled0, onLoadStart0, _listeners0; reflexivity.
    - assert (E : w1 = w).
      { subst w1. open_world w. simpl in *. subst.
        unfold after, load, PreloadJS, bind, this, gets, throw. simpl. reflexivity. }
      subst w2. rewrite E.
      apply (step_untimed js_eval (Fires OnLoadStart) eq_refl w Ht). }
  split; [ | split; [ | split; [exact T2 | ]]].
  - intros Hj. destruct (L Hj) as (L1 & L2 & _). split; assumption.
  - intros Hg. destruct (suppressed_false w Hg) as [Hc Hx].
    destruct (L Hc) as (L1 & L2 & (r1 & L3 & L4) & L5 & L6 & L7 & L8).
    rewrite <- L7, <- L8. rewrite Hx in L6.
    clearbody w1. clear L T2 w2 L7 L8.
    destruct w1 as [l1 g1 lg1]. destruct l1. destruct g1. destruct r1.
    simpl in *. subst.
    unfold after, step, quietly, _handleTimeout, _clean, clearTimeout, _sendError,
      _isCanceled, the_request, update_request, notices, try_catch, bind, this, gets,
      modify, on_win, on_self, when, emit, ret. simpl.
    rewrite Nat.eqb_refl. simpl.
    destruct onError0, _listeners0; simpl; rewrite <- ?app_assoc, ?app_nil_r; reflexivity.
  - intros l id' Hok w3.
    assert (N : no_timer w3).
    { subst w3. apply (preserves_run no_timer js_eval (fun a => negb (is_CallLoad a))).
      - intros a Ha. apply step_untimed. apply negb_true_iff, Ha.
      - exact Hok.
      - exact T2. }
    split; [exact N | apply stale_timer, N].
Qed.

(** C10, as stated, fails when [load()] is called again.  Called twice
    before load-start, it leaves the first timer pending with its handle
    lost: load-start clears the second only, and the first elapses into an
    error after load-start has arrived.  Called after load-start, it
    installs a new timer, whose elapsing is reported likewise. *)
Lemma repeated_load_times_out_after_loadstart :
  let w := listening (mkItem "data.json" JSON None) legacy in
  let twice := run eval_balanced [CallLoad; CallLoad; Fires OnLoadStart] w in
  let again := run eval_balanced [CallLoad; Fires OnLoadStart; CallLoad] w in
  _xhrLevel (self w) = 1%Z
  /\ (timers (win twice) = [1]
      /\ log twice = notices true true LoadStart NoPayload
      /\ log (after (step eval_balanced (TimerFires 1)) twice)
         = log twice ++ notices true true Error (ErrorEvent None))
  /\ (timers (win again) = [2]
      /\ log again = notices true true LoadStart NoPayload
      /\ log (after (step eval_balanced (TimerFires 2)) again)
         = log again ++ notices true true Error (ErrorEvent None)).
Proof. vm_compute. repeat split. Qed.

Lemma loadstart_clears_manual_timer_witness :
  let w := listening (mkItem "data.json" JSON None) legacy in
  let stalled := [Fires (OnProgress 1 10); Fires (OnProgress 2 10)] in
  let w3 := run eval_balanced stalled
              (after (step eval_balanced (Fires OnLoadStart)) (after load w)) in
  timers (win w3) = [] /\ step eval_balanced (TimerFires 1) w3 = (Normal tt, w3).
Proof.
  refine (proj2 (proj2 (proj2
            (loadstart_clears_manual_timer eval_balanced
               (listening (mkItem "data.json" JSON None) legacy) _
               eq_refl eq_refl eq_refl)))
            [Fires (OnProgress 1 10); Fires (OnProgress 2 10)] 1 eq_refl).
Defined.

(** ** Failing statuses *)

(** Case analysis on whatever variable a conditional is stuck on. *)
Ltac case_stuck :=
  repeat (simpl in *; try discriminate;
          match goal with
          | H : context [if ?b then _ else _] |- _ => is_var b; destruct b
          | H : context [match ?x with _ => _ end] |- _ => is_var x; destruct x
          | |- context [if ?b then _ else _] => is_var b; destruct b
          | |- context [match ?x with _ => _ end] => is_var x; destruct x
          | |- context [match el_styleSheet ?x with _ => _ end] => is_var x; destruct x
          end).

(** With what [_generateTag] needs missing, it throws before changing
    anything the notifications depend on. *)
Lemma generateTag_failure (js_eval : value -> option value) (w : world) :
  createjs (win w) = true -> materializable w = false ->
  let w1 := after (_generateTag js_eval) w in
  (exists e, outcome (_generateTag js_eval) w = Throw e)
  /\ win w1 = win w /\ log w1 = log w
  /\ loaded (self w1) = loaded (self w)
  /\ _request (self w1) = _request (self w)
  /\ tag_bound w1 = tag_bound w.
Proof.
  intros Hc Hm w1. subst w1. unfold outcome, after.
  unfold materializable, has_tag, tag_bound in *.
  destruct w as [l g lg]. destruct l. destruct g. destruct _item0 as [sr ty tg].
  simpl in *. subst.
  unfold _generateTag, PreloadJS, _parseXML, the_tag, update_tag, bind, this, gets, modify,
    ret, throw, on_self. simpl.
  destruct ty; simpl in *; try discriminate Hm;
    case_stuck; repeat split; try reflexivity; eexists; reflexivity.
Qed.

Lemma failing_status_iff (r : request) :
  failing_status r = true
  <-> parseInt (status r) = Some 404%Z \/ parseInt (status r) = Some 0%Z.
Proof.
  unfold failing_status. destruct (parseInt (status r)) as [n | ].
  - rewrite orb_true_iff, !Z.eqb_eq. split.
    + intros [-> | ->]; [left | right]; reflexivity.
    + intros [H | H]; injection H as ->; [left | right]; reflexivity.
  - split; [discriminate | intros [H | H]; discriminate].
Qed.

(** A first call on a passing status reports no error: it completes the
    load where the item can be materialized and is no image, and notifies
    nothing otherwise. *)
Lemma handleLoad_passing_log
    (js_eval : value -> option value) (w : world) (r : request) :
  loaded (self w) = false -> _request (self w) = Some r -> failing_status r = false ->
  suppressed w = false ->
  log (after (_handleLoad js_eval) w)
  = log w ++ (if materializable w && negb (is_image (type (_item (self w))))
              then notices (onComplete (self w)) (_listeners (self w)) Complete NoPayload
              else []).
Proof.
  intros Hl Hr Hs Hg. destruct (materializable w) eqn:Hm.
  - destruct (handleLoad_success js_eval w r Hl Hr Hs Hg Hm) as (_ & _ & H & _).
    rewrite H. destruct (is_image (type (_item (self w)))); reflexivity.
  - simpl. rewrite app_nil_r. unfold after.
    rewrite (handleLoad_passing js_eval w r Hl Hr Hs).
    destruct (generateTag_failure js_eval (received w r) (proj1 (suppressed_false w Hg)) Hm)
      as ([e G1] & _ & G3 & _).
    unfold outcome, after in *. unfold bind.
    destruct (_generateTag js_eval (received w r)) as [c wg]. simpl in *. subst c.
    exact G3.
Qed.

(** C5: [_checkError] answers [false] exactly when the status parses to 404
    or to 0, and the first call of [_handleLoad] goes by that answer.  On
    such a status it reports one error, and from then on no complete
    notification is ever added, whatever the user, the transport, the timer
    and the tag do, ready-state changes included.  On every other status it
    reports no error: it takes the success path, which notifies completion
    (for an image, binds the tag that will) where the item can be
    materialized and notifies nothing where [_generateTag] throws. *)
Theorem failing_status_ends_in_error
    (js_eval : value -> option value) (w : world) (r : request) :
  _request (self w) = Some r -> loaded (self w) = false -> suppressed w = false ->
  tag_bound w = false ->
  let failed := parseInt (status r) = Some 404%Z \/ parseInt (status r) = Some 0%Z in
  let w1 := after (_handleLoad js_eval) w in
  (exists ok, outcome _checkError w = Normal ok /\ (ok = false <-> failed))
  /\ (failed ->
      log w1 = log w ++ notices (onError (self w)) (_listeners (self w)) Error (ErrorEvent None)
      /\ forall l,
           let w2 := run js_eval l w1 in
           count Callback Complete (log w2) = count Callback Complete (log w)
           /\ count Dispatch Complete (log w2) = count Dispatch Complete (log w))
  /\ (~ failed ->
      log w1
      = log w ++ (if materializable w && negb (is_image (type (_item (self w))))
                  then notices (onComplete (self w)) (_listeners (self w)) Complete NoPayload
                  else [])
      /\ (materializable w = true -> is_image (type (_item (self w))) = true ->
          tag_bound w1 = true)).
Proof.
  intros Hr Hl Hg Hb failed w1. split; [ | split].
  - exists (negb (failing_status r)). unfold outcome.
    rewrite (checkError_spec w r Hr). split; [reflexivity | ].
    rewrite negb_false_iff. apply failing_status_iff.
  - intros Hs. apply failing_status_iff in Hs.
    assert (E : w1 = logged (notices (onError (self w)) (_listeners (self w)) Error
                               (ErrorEvent None))
                       (cleaned (on_self (set_loaded true) w))).
    { subst w1. unfold after. rewrite (handleLoad_failing js_eval w r Hl Hr Hs).
      rewrite (handleError_spec (on_self (set_loaded true) w) r Hr Hg). reflexivity. }
    split; [rewrite E; reflexivity | ].
    intros l w2.
    assert (S : settled (count Callback Complete (log w)) (count Dispatch Complete (log w)) w1).
    { rewrite E. unfold settled, logged. simpl.
      rewrite !count_app. repeat split.
      - exact Hb.
      - destruct (onError (self w)), (_listeners (self w)); unfold count; simpl;
          apply Nat.add_0_r.
      - destruct (onError (self w)), (_listeners (self w)); unfold count; simpl;
          apply Nat.add_0_r. }
    clearbody w1.
    assert (S2 : settled (count Callback Complete (log w)) (count Dispatch Complete (log w)) w2).
    { subst w2. apply (preserves_run _ js_eval (fun _ => true)).
      - intros a _. apply step_settled.
      - clear. induction l; [reflexivity | assumption].
      - exact S. }
    destruct S2 as (_ & _ & S3 & S4). split; assumption.
  - intros Hn.
    assert (Hs : failing_status r = false).
    { destruct (failing_status r) eqn:F; [ | reflexivity].
      destruct Hn. apply failing_status_iff, F. }
    split.
    + apply (handleLoad_passing_log js_eval w r Hl Hr Hs Hg).
    + intros Hm Hi.
      destruct (handleLoad_success js_eval w r Hl Hr Hs Hg Hm)
        as (_ & _ & _ & _ & _ & _ & H & _).
      subst w1. rewrite H, Hi. reflexivity.
Qed.

Lemma failing_status_ends_in_error_witness :
  let later := [Fires OnReadyStateChange; Calls H_handleReadyStateChange OnReadyStateChange;
                TagLoads; Fires OnLoad] in
  (let w1 := after (_handleLoad eval_balanced) failed_fetch in
   log w1 = [Notice Callback Error (ErrorEvent None); Notice Dispatch Error (ErrorEvent None)]
   /\ count Callback Complete (log (run eval_balanced later w1)) = 0
   /\ count Dispatch Complete (log (run eval_balanced later w1)) = 0)
  /\ log (after (_handleLoad eval_balanced) text_fetch)
     = [Notice Callback Complete NoPayload; Notice Dispatch Complete NoPayload].
Proof.
  split.
  - pose proof (proj1 (proj2 (failing_status_ends_in_error eval_balanced
                  failed_fetch _
                  eq_refl eq_refl eq_refl eq_refl)) (or_introl eq_refl)) as [H1 H2].
    split; [exact H1 | ].
    exact (H2 [Fires OnReadyStateChange; Calls H_handleReadyStateChange OnReadyStateChange;
               TagLoads; Fires OnLoad]).
  - refine (proj1 (proj2 (proj2 (failing_status_ends_in_error eval_balanced
                     text_fetch _
                     eq_refl eq_refl eq_refl eq_refl)) _)).
    intros [H | H]; discriminate H.
Defined.

Lemma redundant_completion_signals_witness :
  let w := text_fetch in
  let w2 := run eval_balanced
              [Calls H_handleLoad OnLoad; Calls H_handleReadyStateChange OnReadyStateChange] w in
  count Callback Complete (log w2) = 1 /\ count Dispatch Complete (log w2) = 1.
Proof.
  exact (proj2 (proj2 (redundant_completion_signals_complete_once eval_balanced text_fetch _ true
            OnLoad OnReadyStateChange eq_refl eq_refl eq_refl eq_refl eq_refl eq_refl))).
Defined.


Lemma unparsable_json_keeps_text_witness :
  let w := json_fetch in
  let w1 := after (_handleLoad eval_balanced) w in
  log w1 = [Notice Callback Complete NoPayload; Notice Dispatch Complete NoPayload]
  /\ outcome getResult w1 = Normal (Text "{not valid json")
  /\ outcome getRawResult w1 = Normal Null.
Proof.
  exact (unparsable_json_keeps_text eval_balanced json_fetch _
           eq_refl eq_refl eq_refl eq_refl eq_refl eq_refl).
Defined.

Lemma xml_branch_drops_raw_result_witness :
  let w := xml_fetch in
  let w1 := after (_handleLoad eval_balanced) w in
  log w1 = [Notice Callback Complete NoPayload; Notice Dispatch Complete NoPayload]
  /\ outcome getResult w1 = Normal (XmlDocument (Text "<a/>") (Some "text/xml"))
  /\ outcome getRawResult w1 = Normal Null.
Proof.
  exact (xml_branch_drops_raw_result eval_balanced xml_fetch _
           eq_refl eq_refl eq_refl eq_refl eq_refl eq_refl).
Defined.

(** * Further properties *)

(** ** A released loader hears nothing *)

Section Deaf.

Variable js_eval : value -> option value.

Lemma untimed_clears (w : world) :
  only_manual_timer w -> timers (win (untimed w)) = [].
Proof.
  unfold only_manual_timer, untimed. destruct w as [l g lg]. simpl.
  intros H. destruct (_loadTimeout l) as [id | ].
  - induction (timers g) as [ | t ts IH]; [reflexivity | ]. simpl.
    assert (E : Some id = Some t) by (apply H; left; reflexivity).
    injection E as ->. rewrite Nat.eqb_refl. simpl.
    apply IH. intros t' Ht'. apply H. right. exact Ht'.
  - destruct (timers g) as [ | t ts]; [reflexivity | ].
    discriminate (H t (or_introl eq_refl)).
Qed.

Lemma cleaned_deaf (w : world) (r : request) :
  _request (self w) = Some r -> only_manual_timer w -> tag_bound w = false ->
  deaf (log w) (cleaned w).
Proof.
  intros Hr Ht Hb. unfold deaf, cleaned. simpl.
  repeat split.
  - exact (untimed_clears w Ht).
  - exact Hb.
  - rewrite Hr. reflexivity.
Qed.

Lemma deaf_logged (l l' : list notice) (w : world) :
  deaf l w -> deaf (l ++ l') (logged l' w).
Proof.
  intros (H1 & H2 & H3 & H4). unfold deaf, logged. simpl.
  rewrite H1. repeat split; assumption.
Qed.

Lemma step_deaf (l : list notice) (a : action) :
  is_env a = true -> preserves (deaf l) (step js_eval a).
Proof.
  intros Ha w Hw. pose proof Hw as (H1 & H2 & H3 & H4).
  destruct a; try discriminate Ha; unfold after, step.
  - unfold deliver. rewrite (bind_normal w w (_request (self w))) by reflexivity.
    destruct (_request (self w)) as [r | ] eqn:Er; [ | exact Hw].
    unfold hooks_free in H4. repeat (apply andb_prop in H4; destruct H4 as [H4 ?]).
    assert (E : hook_of e r = None).
    { destruct e; simpl;
        match goal with |- ?h = None => destruct h; [discriminate | reflexivity] end. }
    rewrite E. exact Hw.
  - unfold bind, gets. simpl. rewrite H2. exact Hw.
  - rewrite (bind_normal w w (_item (self w))) by reflexivity.
    unfold tag_bound in H3.
    destruct (tag (_item (self w))) as [el | ] eqn:Et; [rewrite H3 | ]; exact Hw.
  - unfold deaf, tag_bound, update_request. simpl.
    repeat split; try assumption.
    destruct (_request (self w)) as [r | ]; [exact H4 | exact I].
Qed.

Lemma run_deaf (l : list notice) (acts : list action) (w : world) :
  forallb is_env acts = true -> deaf l w -> deaf l (run js_eval acts w).
Proof.
  intros Ha Hw. apply (preserves_run (deaf l) js_eval is_env); try assumption.
  intros a. apply step_deaf.
Qed.

End Deaf.

Section Released.

Variable js_eval : value -> option value.

Lemma hooks_free_cleared (r : request) :
  hooks_free (set_hooks None None None None None None None None r) = true.
Proof. reflexivity. Qed.

(** X1: [_handleAbort], [_handleError] and [_handleTimeout] each release the
    transport and report one error; whatever the browser does afterwards
    (transport events, answers, timers, the tag's load event), nothing more
    is notified. *)
Theorem error_handlers_release_the_loader
    (w : world) (r : request) (h : handler) (e : transport_event) :
  h = H_handleAbort \/ h = H_handleError \/ h = H_handleTimeout ->
  _request (self w) = Some r -> suppressed w = false ->
  only_manual_timer w -> tag_bound w = false ->
  let w1 := after (invoke js_eval h e) w in
  outcome (invoke js_eval h e) w = Normal tt
  /\ log w1 = log w ++ notices (onError (self w)) (_listeners (self w)) Error (ErrorEvent None)
  /\ timers (win w1) = []
  /\ (exists r1, _request (self w1) = Some r1 /\ hooks_free r1 = true)
  /\ forall acts, forallb is_env acts = true -> log (run js_eval acts w1) = log w1.
Proof.
  intros Hh Hr Hg Ht Hb w1.
  assert (E : invoke js_eval h e = _handleError).
  { destruct Hh as [-> | [-> | ->]]; reflexivity. }
  subst w1. rewrite E. unfold outcome, after.
  rewrite (handleError_spec w r Hr Hg). simpl.
  pose proof (cleaned_deaf w r Hr Ht Hb) as D.
  pose proof (deaf_logged (log w)
                (notices (onError (self w)) (_listeners (self w)) Error (ErrorEvent None))
                (cleaned w) D) as D1.
  repeat split.
  - exact (untimed_clears w Ht).
  - rewrite Hr. simpl. eexists. split; [reflexivity | apply hooks_free_cleared].
  - intros acts Ha.
    exact (proj1 (run_deaf js_eval _ acts _ Ha D1)).
Qed.

(** X2: On a loader that is not canceled, whose only pending timer is the
    one kept in [_loadTimeout] and whose tag is not bound: when the item
    lacks what its type needs (the tag of an image, a style sheet or an SVG,
    the document head, an XML parser), a first [_handleLoad] on a passing
    status ends in an exception; the load is marked, the transport is
    released, and neither a complete nor an error notification is ever
    delivered by what the browser does next. *)
Theorem unmaterializable_load_ends_silently (w : world) (r : request) :
  loaded (self w) = false -> _request (self w) = Some r -> failing_status r = false ->
  suppressed w = false -> materializable w = false ->
  only_manual_timer w -> tag_bound w = false ->
  let w1 := after (_handleLoad js_eval) w in
  (exists e, outcome (_handleLoad js_eval) w = Throw e)
  /\ loaded (self w1) = true
  /\ forall acts, forallb is_env acts = true -> log (run js_eval acts w1) = log w.
Proof.
  intros Hl Hr Hs Hg Hm Ht Hb w1. subst w1. unfold outcome, after.
  rewrite (handleLoad_passing js_eval w r Hl Hr Hs).
  destruct (generateTag_failure js_eval (received w r) (proj1 (suppressed_false w Hg)) Hm)
    as ([e G1] & G2 & G3 & G4 & G5 & G6).
  unfold outcome, after in *. unfold bind.
  destruct (_generateTag js_eval (received w r)) as [c wg]. simpl in *. subst c.
  simpl. split; [exists e; reflexivity | split; [exact G4 | ]].
  intros acts Ha.
  assert (D : deaf (log w) wg).
  { unfold deaf. rewrite G2, G3, G5, G6. simpl.
    repeat split.
    - exact (untimed_clears _ Ht).
    - exact Hb.
    - rewrite Hr. reflexivity. }
  exact (proj1 (run_deaf js_eval _ acts _ Ha D)).
Qed.

(** X3: On a loader that is not canceled, whose only pending timer is the
    one kept in [_loadTimeout] and whose tag is not bound: once a first,
    passing [_handleLoad] has completed the load of anything but an image,
    nothing the browser does adds a notification, and the log stays at the
    one complete notification. *)
Theorem completed_load_hears_nothing (w : world) (r : request) :
  loaded (self w) = false -> _request (self w) = Some r -> failing_status r = false ->
  suppressed w = false -> materializable w = true ->
  is_image (type (_item (self w))) = false ->
  only_manual_timer w -> tag_bound w = false ->
  let w1 := after (_handleLoad js_eval) w in
  forall acts, forallb is_env acts = true ->
  log (run js_eval acts w1)
  = log w ++ notices (onComplete (self w)) (_listeners (self w)) Complete NoPayload.
Proof.
  intros Hl Hr Hs Hg Hm Hi Ht Hb w1 acts Ha. subst w1. unfold after.
  rewrite (handleLoad_passing js_eval w r Hl Hr Hs).
  destruct (generateTag_spec js_eval (received w r) (proj1 (suppressed_false w Hg)) Hm)
    as (G1 & G2 & G3 & G4 & G5 & G6 & G7 & G8 & G9).
  unfold outcome, after in *.
  change (type (_item (self (received w r)))) with (type (_item (self w))) in *.
  rewrite Hi in G1, G9. unfold bind.
  destruct (_generateTag js_eval (received w r)) as [c wg]. simpl in *. subst c.
  assert (Hg1 : suppressed wg = false).
  { unfold suppressed. rewrite G2, G5. exact Hg. }
  rewrite (sendComplete_spec wg Hg1). simpl.
  assert (D : deaf (log w) wg).
  { unfold deaf. rewrite G2, G3, G8, G9. simpl.
    repeat split.
    - exact (untimed_clears _ Ht).
    - exact Hb.
    - rewrite Hr. reflexivity. }
  rewrite G6, G7.
  exact (proj1 (run_deaf js_eval _ acts _ Ha
                  (deaf_logged (log w) _ wg D))).
Qed.

End Released.

(** ** What each type materializes to *)

(** Runs a first, passing [_handleLoad] on a world opened into its fields. *)
Ltac materialize w r Hl Hr Hs Hg :=
  unfold outcome, after;
  rewrite (handleLoad_passing _ w r Hl Hr Hs);
  let Hc := fresh "Hc" in
  let Hx := fresh "Hx" in
  destruct (suppressed_false w Hg) as [Hc Hx]; clear Hg;
  unfold received, cleaned, untimed;
  let l := fresh "l" in
  let g := fresh "g" in
  let lg := fresh "lg" in
  destruct w as [l g lg]; destruct l; destruct g;
  match goal with i : item |- _ => destruct i end;
  simpl in *; subst;
  unfold _generateTag, PreloadJS, _parseXML, the_tag, update_tag, _sendComplete, _isCanceled,
    getResult, getRawResult, bind, this, gets, modify, ret, throw, when, emit, append_log,
    notices, on_self;
  simpl.

Section Materialization.

Variable js_eval : value -> option value.

(** X4: A JSON body that evaluates: the load completes, the evaluated value is
    the result and the fetched text is the raw result. *)
Theorem evaluated_json_keeps_text_as_raw (w : world) (r : request) (json : value) :
  type (_item (self w)) = JSON -> loaded (self w) = false ->
  _request (self w) = Some r -> failing_status r = false -> suppressed w = false ->
  js_eval (fetched (_response (self w)) r) = Some json ->
  let w1 := after (_handleLoad js_eval) w in
  log w1 = log w ++ notices (onComplete (self w)) (_listeners (self w)) Complete NoPayload
  /\ outcome getResult w1 = Normal json
  /\ outcome getRawResult w1 = Normal (fetched (_response (self w)) r).
Proof.
  intros Ht Hl Hr Hs Hg He w1. subst w1. materialize w r Hl Hr Hs Hg.
  rewrite He. simpl. destruct onComplete0, _listeners0; simpl;
    rewrite <- ?app_assoc, ?app_nil_r; repeat split.
Qed.

(** X5: Text, binary and every type the loader does not know pass through: the
    load completes, the fetched payload is the result as it came, the raw
    result is not set and the item is not touched. *)
Theorem unparsed_types_pass_through (w : world) (r : request) :
  match type (_item (self w)) with
  | TEXT | BINARY | OtherType _ => True
  | _ => False
  end ->
  loaded (self w) = false -> _request (self w) = Some r -> failing_status r = false ->
  suppressed w = false ->
  let w1 := after (_handleLoad js_eval) w in
  log w1 = log w ++ notices (onComplete (self w)) (_listeners (self w)) Complete NoPayload
  /\ outcome getResult w1 = Normal (fetched (_response (self w)) r)
  /\ outcome getRawResult w1 = Normal (_rawResponse (self w))
  /\ _item (self w1) = _item (self w).
Proof.
  intros Ht Hl Hr Hs Hg w1. subst w1. materialize w r Hl Hr Hs Hg.
  destruct type0; try contradiction; simpl;
    destruct onComplete0, _listeners0; simpl;
    rewrite <- ?app_assoc, ?app_nil_r; repeat split.
Qed.

(** X6: A script: the result is a new script element whose text is the fetched
    payload, the payload is kept as the raw result, and the item's own tag
    is not used. *)
Theorem script_is_wrapped (w : world) (r : request) :
  type (_item (self w)) = JAVASCRIPT -> loaded (self w) = false ->
  _request (self w) = Some r -> failing_status r = false -> suppressed w = false ->
  let w1 := after (_handleLoad js_eval) w in
  let body := fetched (_response (self w)) r in
  log w1 = log w ++ notices (onComplete (self w)) (_listeners (self w)) Complete NoPayload
  /\ outcome getResult w1 = Normal (ScriptTag body)
  /\ outcome getRawResult w1 = Normal body
  /\ _item (self w1) = _item (self w).
Proof.
  intros Ht Hl Hr Hs Hg w1 body. subst w1 body. materialize w r Hl Hr Hs Hg.
  destruct onComplete0, _listeners0; simpl;
    rewrite <- ?app_assoc, ?app_nil_r; repeat split.
Qed.

(** A first, passing call on an item that is no image and has what its
    type needs: [_generateTag] runs on the received world and one complete
    notification follows. *)
Lemma handleLoad_completes (w : world) (r : request) :
  loaded (self w) = false -> _request (self w) = Some r -> failing_status r = false ->
  suppressed w = false -> materializable w = true ->
  is_image (type (_item (self w))) = false ->
  _handleLoad js_eval w
  = (Normal tt,
     logged (notices (onComplete (self w)) (_listeners (self w)) Complete NoPayload)
       (after (_generateTag js_eval) (received w r))).
Proof.
  intros Hl Hr Hs Hg Hm Hi.
  rewrite (handleLoad_passing js_eval w r Hl Hr Hs).
  destruct (generateTag_spec js_eval (received w r) (proj1 (suppressed_false w Hg)) Hm)
    as (G1 & G2 & G3 & G4 & G5 & G6 & G7 & G8 & G9).
  unfold outcome, after in *.
  change (type (_item (self (received w r)))) with (type (_item (self w))) in *.
  rewrite Hi in G1. unfold bind.
  destruct (_generateTag js_eval (received w r)) as [c wg]. simpl in *. subst c.
  assert (Hg1 : suppressed wg = false).
  { unfold suppressed. rewrite G2, G5. exact Hg. }
  rewrite (sendComplete_spec wg Hg1), G6, G7. reflexivity.
Qed.

Lemma generateTag_css (w : world) (el : element) :
  createjs (win w) = true -> type (_item (self w)) = CSS ->
  tag (_item (self w)) = Some el -> head (win w) = true ->
  let wg := after (_generateTag js_eval) w in
  let body := _response (self w) in
  _response (self wg) = ItemTag /\ _rawResponse (self wg) = body
  /\ tag (_item (self wg))
     = Some (match el_styleSheet el with
             | Some _ => mkElement (el_onload el) (el_src el) (Some body) (el_children el) true
             | None =>
                 mkElement (el_onload el) (el_src el) None (el_children el ++ [TextNode body])
                   true
             end).
Proof.
  intros Hc Ht He Hh wg body. subst wg body. unfold after.
  destruct w as [l g lg]. destruct l. destruct g. destruct _item0 as [sr ty tg].
  simpl in *. subst.
  unfold _generateTag, PreloadJS, the_tag, update_tag, bind, this, gets, modify, ret, throw,
    on_self. simpl.
  destruct el as [o s ss ch ih]. destruct ss; repeat split.
Qed.

Lemma generateTag_svg (w : world) (el : element) :
  createjs (win w) = true -> type (_item (self w)) = SVG ->
  tag (_item (self w)) = Some el -> has_DOMParser (win w) || has_XMLDOM (win w) = true ->
  let wg := after (_generateTag js_eval) w in
  let body := _response (self w) in
  let xml := XmlDocument body
               (if has_DOMParser (win w) then Some "image/svg+xml"%string else None) in
  _response (self wg) = ItemTag /\ _rawResponse (self wg) = body
  /\ tag (_item (self wg))
     = Some (mkElement (el_onload el) (el_src el) (el_styleSheet el)
               (el_children el ++ [DocumentElement xml]) (el_in_head el)).
Proof.
  intros Hc Ht He Hp wg body xml. subst wg body xml. unfold after.
  destruct w as [l g lg]. destruct l. destruct g. destruct _item0 as [sr ty tg].
  simpl in *. subst.
  unfold _generateTag, PreloadJS, _parseXML, the_tag, update_tag, bind, this, gets, modify,
    ret, throw, on_self. simpl.
  destruct has_DOMParser0, has_XMLDOM0; try discriminate Hp; repeat split.
Qed.

(** X7: A style sheet: the item's tag is appended to the document head and
    receives the fetched text, as [styleSheet.cssText] where the tag has a
    [styleSheet], as a new text node child otherwise; the tag is the
    result and the text the raw result. *)
Theorem style_sheet_is_injected (w : world) (r : request) (el : element) :
  type (_item (self w)) = CSS -> tag (_item (self w)) = Some el -> head (win w) = true ->
  loaded (self w) = false -> _request (self w) = Some r -> failing_status r = false ->
  suppressed w = false ->
  let w1 := after (_handleLoad js_eval) w in
  let body := fetched (_response (self w)) r in
  log w1 = log w ++ notices (onComplete (self w)) (_listeners (self w)) Complete NoPayload
  /\ outcome getResult w1 = Normal ItemTag
  /\ outcome getRawResult w1 = Normal body
  /\ tag (_item (self w1))
     = Some (match el_styleSheet el with
             | Some _ => mkElement (el_onload el) (el_src el) (Some body) (el_children el) true
             | None =>
                 mkElement (el_onload el) (el_src el) None (el_children el ++ [TextNode body])
                   true
             end).
Proof.
  intros Ht He Hh Hl Hr Hs Hg w1 body. subst w1 body. unfold after at 1 2 3 4.
  assert (Hm : materializable w = true).
  { unfold materializable, has_tag. rewrite Ht, Hh, He. reflexivity. }
  assert (Hi : is_image (type (_item (self w))) = false) by (rewrite Ht; reflexivity).
  rewrite (handleLoad_completes w r Hl Hr Hs Hg Hm Hi).
  destruct (generateTag_css (received w r) el (proj1 (suppressed_false w Hg)) Ht He Hh)
    as (G1 & G2 & G3).
  unfold outcome, getResult, getRawResult, this, gets, logged. simpl.
  rewrite G1, G2, G3.
  split; [ | repeat split].
  rewrite (proj1 (proj2 (proj2 (generateTag_spec js_eval (received w r)
             (proj1 (suppressed_false w Hg)) Hm)))). reflexivity.
Qed.

(** X8: An SVG: the fetched text is parsed (as [image/svg+xml] by a DOMParser,
    by [loadXML], which takes no type, otherwise), the root of the parsed
    document is appended to the item's tag, the tag is the result and the
    text the raw result. *)
Theorem svg_is_grafted (w : world) (r : request) (el : element) :
  type (_item (self w)) = SVG -> tag (_item (self w)) = Some el ->
  has_DOMParser (win w) || has_XMLDOM (win w) = true ->
  loaded (self w) = false -> _request (self w) = Some r -> failing_status r = false ->
  suppressed w = false ->
  let w1 := after (_handleLoad js_eval) w in
  let body := fetched (_response (self w)) r in
  let xml := XmlDocument body
               (if has_DOMParser (win w) then Some "image/svg+xml"%string else None) in
  log w1 = log w ++ notices (onComplete (self w)) (_listeners (self w)) Complete NoPayload
  /\ outcome getResult w1 = Normal ItemTag
  /\ outcome getRawResult w1 = Normal body
  /\ tag (_item (self w1))
     = Some (mkElement (el_onload el) (el_src el) (el_styleSheet el)
               (el_children el ++ [DocumentElement xml]) (el_in_head el)).
Proof.
  intros Ht He Hp Hl Hr Hs Hg w1 body xml. subst w1 body xml. unfold after at 1 2 3 4.
  assert (Hm : materializable w = true).
  { unfold materializable, has_tag. rewrite Ht, Hp, He. reflexivity. }
  assert (Hi : is_image (type (_item (self w))) = false) by (rewrite Ht; reflexivity).
  rewrite (handleLoad_completes w r Hl Hr Hs Hg Hm Hi).
  destruct (generateTag_svg (received w r) el (proj1 (suppressed_false w Hg)) Ht He Hp)
    as (G1 & G2 & G3).
  unfold outcome, getResult, getRawResult, this, gets, logged. simpl.
  rewrite G1, G2, G3.
  split; [ | repeat split].
  rewrite (proj1 (proj2 (proj2 (generateTag_spec js_eval (received w r)
             (proj1 (suppressed_false w Hg)) Hm)))). reflexivity.
Qed.

Lemma generateTag_image (w : world) (el : element) :
  createjs (win w) = true -> type (_item (self w)) = IMAGE ->
  tag (_item (self w)) = Some el ->
  let wg := after (_generateTag js_eval) w in
  _response (self wg) = ItemTag /\ _rawResponse (self wg) = _response (self w)
  /\ tag (_item (self wg))
     = Some (mkElement true (Some (src (_item (self w)))) (el_styleSheet el)
               (el_children el) (el_in_head el)).
Proof.
  intros Hc Ht He wg. subst wg. unfold after.
  destruct w as [l g lg]. destruct l. destruct g. destruct _item0 as [sr ty tg].
  simpl in *. subst.
  unfold _generateTag, PreloadJS, the_tag, update_tag, bind, this, gets, modify, ret, throw,
    on_self. simpl. repeat split.
Qed.

(** Each load event of a bound tag adds one complete notification. *)
Lemma tag_loads_count (n : nat) (w : world) :
  tag_bound w = true -> suppressed w = false ->
  let w1 := run js_eval (repeat TagLoads n) w in
  count Callback Complete (log w1)
  = count Callback Complete (log w) + n * expected (onComplete (self w))
  /\ count Dispatch Complete (log w1)
     = count Dispatch Complete (log w) + n * expected (_listeners (self w)).
Proof.
  revert w. induction n as [ | n IH]; intros w Hb Hg w1; subst w1.
  - change (run js_eval (repeat TagLoads 0) w) with w.
    rewrite !Nat.add_0_r. split; reflexivity.
  - change (run js_eval (repeat TagLoads (S n)) w)
      with (run js_eval (repeat TagLoads n) (after (step js_eval TagLoads) w)).
    rewrite (tag_ready_completes js_eval w Hb Hg).
    set (N := notices (onComplete (self w)) (_listeners (self w)) Complete NoPayload).
    destruct (IH (logged N w) Hb Hg) as [I1 I2].
    rewrite I1, I2.
    change (log (logged N w)) with (log w ++ N).
    change (self (logged N w)) with (self w).
    rewrite !count_app.
    unfold N. rewrite count_notices_callback, count_notices_dispatch.
    split; rewrite <- Nat.add_assoc; reflexivity.
Qed.

(** X9: An image: the first, passing call binds the item's tag to
    [_handleTagReady], gives it the item's source and notifies nothing; the
    tag is the result and the fetched payload the raw result.  Completion
    comes from the tag: each of its load events adds one complete
    notification, and nothing limits them to one. *)
Theorem image_completes_on_tag_load (w : world) (r : request) (el : element) :
  type (_item (self w)) = IMAGE -> tag (_item (self w)) = Some el ->
  loaded (self w) = false -> _request (self w) = Some r -> failing_status r = false ->
  suppressed w = false ->
  let w1 := after (_handleLoad js_eval) w in
  log w1 = log w
  /\ outcome getResult w1 = Normal ItemTag
  /\ outcome getRawResult w1 = Normal (fetched (_response (self w)) r)
  /\ tag (_item (self w1))
     = Some (mkElement true (Some (src (_item (self w)))) (el_styleSheet el)
               (el_children el) (el_in_head el))
  /\ forall n,
       let w2 := run js_eval (repeat TagLoads n) w1 in
       count Callback Complete (log w2)
       = count Callback Complete (log w) + n * expected (onComplete (self w))
       /\ count Dispatch Complete (log w2)
          = count Dispatch Complete (log w) + n * expected (_listeners (self w)).
Proof.
  intros Ht He Hl Hr Hs Hg w1.
  assert (Hm : materializable w = true).
  { unfold materializable, has_tag. rewrite Ht, He. reflexivity. }
  destruct (handleLoad_success js_eval w r Hl Hr Hs Hg Hm)
    as (_ & _ & S3 & S4 & S5 & S6 & S7 & _).
  fold w1 in S3, S4, S5, S6, S7. rewrite Ht in S3, S7. simpl in S3, S7.
  rewrite app_nil_r in S3.
  assert (E : w1 = after (_generateTag js_eval) (received w r)).
  { subst w1. unfold after. rewrite (handleLoad_passing js_eval w r Hl Hr Hs).
    destruct (generateTag_spec js_eval (received w r) (proj1 (suppressed_false w Hg)) Hm)
      as (G1 & _).
    unfold outcome in G1.
    change (type (_item (self (received w r)))) with (type (_item (self w))) in G1.
    rewrite Ht in G1. unfold bind.
    destruct (_generateTag js_eval (received w r)) as [c wg]. simpl in *. subst c.
    reflexivity. }
  destruct (generateTag_image (received w r) el (proj1 (suppressed_false w Hg)) Ht He)
    as (G1 & G2 & G3).
  rewrite <- E in G1, G2, G3.
  split; [exact S3 | ].
  unfold outcome, getResult, getRawResult, this, gets. simpl.
  rewrite G1, G2, G3.
  repeat split.
  - destruct (tag_loads_count n w1 S7 S4) as [C1 _]. rewrite C1, S3, S5. reflexivity.
  - destruct (tag_loads_count n w1 S7 S4) as [_ C2]. rewrite C2, S3, S6. reflexivity.
Qed.

End Materialization.

(** ** Reading the response *)

(** X10: [_getResponse] answers the loader's own response when it has one,
    transport or not.  Otherwise, with a transport, it answers the first of
    [response], [responseText] and [responseXML] that is not [null], a getter
    that throws counting as [null], and [null] if there is none: it never
    throws and changes nothing.  With neither it throws a TypeError. *)
Theorem getResponse_takes_first_available (w : world) :
  (is_null (_response (self w)) = false ->
   _getResponse w = (Normal (_response (self w)), w))
  /\ (forall r, _request (self w) = Some r ->
      _getResponse w
      = (Normal (first_non_null [_response (self w); response r;
                                 read_or_null (responseText r);
                                 read_or_null (responseXML r)]), w))
  /\ (is_null (_response (self w)) = true -> _request (self w) = None ->
      exists what, _getResponse w = (Throw (TypeError what), w)).
Proof.
  split; [ | split].
  - intros H. unfold _getResponse.
    rewrite (bind_normal w w (_response (self w))) by reflexivity.
    rewrite H. reflexivity.
  - intros r Hr. rewrite (getResponse_spec w r Hr). unfold fetched, first_non_null.
    simpl.
    destruct (is_null (_response (self w))); simpl; [ | reflexivity].
    destruct (is_null (response r)); simpl; [ | reflexivity].
    destruct (responseText r) as [t | e]; simpl;
      [destruct (is_null t); simpl; [ | reflexivity] | ];
      destruct (responseXML r) as [x | e']; simpl; try reflexivity;
      destruct x; reflexivity.
  - intros H Hr. eexists. unfold _getResponse.
    rewrite (bind_normal w w (_response (self w))) by reflexivity.
    rewrite H. simpl.
    apply bind_throw. apply the_request_none. exact Hr.
Qed.

(** ** Progress values that are not pairs *)

Lemma sendProgress_primitive_spec (v : float) (w : world) :
  suppressed w = false ->
  _sendProgress (Primitive v) w
  = (Normal tt,
     logged (notices (onProgress (self w)) (_listeners (self w)) Progress (ProgressPrimitive v))
       (on_self (set_progress zero) w)).
Proof.
  intros H. unfold _sendProgress. destruct w as [l g lg].
  unfold bind at 1; rewrite isCanceled_spec, H.
  unfold bind, this, gets, when, emit, modify, ret, throw, append_log, logged, notices,
    on_self. simpl.
  destruct (onProgress l); simpl; destruct (_listeners l); simpl;
    rewrite <- ?app_assoc, ?app_nil_r; reflexivity.
Qed.

Lemma sendProgress_number_spec (v : float) (w : world) :
  suppressed w = false ->
  _sendProgress (NumberObject v) w
  = (Normal tt,
     logged (notices (onProgress (self w)) (_listeners (self w)) Progress (ProgressEvent v one))
       (on_self (set_progress v) w)).
Proof.
  intros H. unfold _sendProgress. destruct w as [l g lg].
  unfold bind at 1; rewrite isCanceled_spec, H.
  unfold bind, this, gets, when, emit, modify, ret, throw, append_log, logged, notices,
    on_self. simpl.
  destruct (onProgress l); simpl; destruct (_listeners l); simpl;
    rewrite <- ?app_assoc, ?app_nil_r; reflexivity.
Qed.

(** X11: [_sendProgress] on a primitive number stores 0, whatever the number: a
    primitive is no instance of [Number], and its [loaded] and [total] are
    undefined.  On a [Number] object it stores the number as it is, NaN and
    [Infinity] included, and notifies [{loaded: number, total: 1}].  On
    [undefined] it throws and changes nothing. *)
Theorem sendProgress_on_numbers (v : float) (w : world) :
  suppressed w = false ->
  (let w1 := after (_sendProgress (Primitive v)) w in
   progress (self w1) = zero
   /\ log w1 = log w ++ notices (onProgress (self w)) (_listeners (self w)) Progress
                          (ProgressPrimitive v))
  /\ (let w1 := after (_sendProgress (NumberObject v)) w in
      progress (self w1) = v
      /\ log w1 = log w ++ notices (onProgress (self w)) (_listeners (self w)) Progress
                             (ProgressEvent v one))
  /\ (exists what, _sendProgress Undefined w = (Throw (TypeError what), w)).
Proof.
  intros H. unfold after.
  rewrite (sendProgress_primitive_spec v w H), (sendProgress_number_spec v w H).
  repeat split. eexists. unfold _sendProgress.
  unfold bind at 1. rewrite isCanceled_spec, H. reflexivity.
Qed.

(** ** Cancelling *)

Section Cancelling.

Variable js_eval : value -> option value.

Lemma hooks_free_none (r : request) :
  hooks_free r = true ->
  onloadstart r = None /\ onprogress r = None /\ onabort r = None /\ onerror r = None
  /\ onload r = None /\ ontimeout r = None /\ onloadend r = None
  /\ onreadystatechange r = None.
Proof.
  unfold hooks_free. intros H.
  repeat (apply andb_prop in H; destruct H as [H ?]).
  repeat split;
    match goal with
    | |- ?h = None => destruct h; [discriminate | reflexivity]
    end.
Qed.

(** [abort()] on a transport whose hooks are cleared calls nothing. *)
Lemma abort_unhooked (w : world) (r : request) :
  _request (self w) = Some r -> hooks_free r = true ->
  let w1 := after (abort js_eval) w in
  outcome (abort js_eval) w = Normal tt
  /\ win w1 = win w /\ log w1 = log w /\ canceled (self w1) = canceled (self w)
  /\ exists r1, _request (self w1) = Some r1 /\ hooks_free r1 = true /\ aborted r1 = true.
Proof.
  intros Hr Hf w1. subst w1.
  destruct (hooks_free_none r Hf) as (F1 & F2 & F3 & F4 & F5 & F6 & F7 & F8).
  destruct w as [l g lg]. destruct l. destruct r. simpl in *. subst.
  unfold outcome, after, abort, deliver, the_request, update_request, bind, this, gets,
    modify, ret, throw, on_self. simpl.
  destruct ((0 <? sent0)%nat && negb (readyState0 =? 4)%Z); simpl;
    repeat split; eexists; repeat split.
Qed.

(** X12: [cancel()] on a loader with a transport returns normally: the loader is
    canceled, nothing is notified, the manual timer is cleared, every hook
    of the transport is null and the transport has been asked to abort. *)
Theorem cancel_releases_and_aborts (w : world) (r : request) :
  _request (self w) = Some r -> only_manual_timer w ->
  let w1 := after (cancel js_eval) w in
  outcome (cancel js_eval) w = Normal tt
  /\ canceled (self w1) = true /\ log w1 = log w /\ timers (win w1) = []
  /\ exists r1, _request (self w1) = Some r1 /\ hooks_free r1 = true /\ aborted r1 = true.
Proof.
  intros Hr Ht w1. subst w1. unfold outcome, after, cancel.
  set (w0 := on_self (set_canceled true) w).
  rewrite (bind_normal w w0 tt) by reflexivity.
  rewrite (bind_normal w0 (cleaned w0) tt) by (apply (clean_spec w0 r); exact Hr).
  assert (Hr1 : _request (self (cleaned w0))
                = Some (set_hooks None None None None None None None None r)).
  { unfold cleaned, w0. simpl. rewrite Hr. reflexivity. }
  destruct (abort_unhooked (cleaned w0) _ Hr1 (hooks_free_cleared r))
    as (A1 & A2 & A3 & A4 & A5).
  unfold outcome, after in *.
  destruct (abort js_eval (cleaned w0)) as [c wa]. simpl in *. subst c.
  repeat split; try assumption.
  rewrite A2. exact (untimed_clears w0 Ht).
Qed.

(** X13: [cancel()] on a loader without transport throws a TypeError out of
    [_clean], but only after marking the loader canceled: nothing is
    notified, then or by any later [_sendError]. *)
Theorem cancel_without_transport_throws (w : world) :
  _request (self w) = None ->
  let w1 := after (cancel js_eval) w in
  (exists what, outcome (cancel js_eval) w = Throw (TypeError what))
  /\ canceled (self w1) = true /\ log w1 = log w
  /\ forall e, _sendError e w1 = (Normal tt, w1).
Proof.
  intros Hr w1. subst w1. unfold outcome, after, cancel.
  set (w0 := on_self (set_canceled true) w).
  rewrite (bind_normal w w0 tt) by reflexivity.
  rewrite (bind_throw w0 (untimed w0) (TypeError "Cannot set property 'onloadstart' of null")).
  - simpl. repeat split; [eexists; reflexivity | ].
    intros e. apply sendError_suppressed. unfold suppressed. simpl. apply orb_true_r.
  - apply clean_without_transport. exact Hr.
Qed.

End Cancelling.

(** ** Starting the load *)

Section Starting.

Variable js_eval : value -> option value.

(** X14: [load()] on a loader with a transport binds every event of the
    transport to its own handler and leaves the loadend hook alone, so that
    an event fired afterwards runs that handler; [send()] is called once. *)
Theorem load_binds_each_event (w : world) (r : request) :
  _request (self w) = Some r -> createjs (win w) = true ->
  let w1 := after load w in
  exists r1,
    _request (self w1) = Some r1
    /\ (forall e, hook_of e r1 = Some (designated e))
    /\ onloadend r1 = onloadend r
    /\ sent r1 = (if is_none (send_fault r) then S (sent r) else sent r)
    /\ forall e, step js_eval (Fires e) w1 = quietly (invoke js_eval (designated e) e) w1.
Proof.
  intros Hr Hc w1.
  assert (E : exists r1,
             _request (self w1) = Some r1
             /\ (forall e, hook_of e r1 = Some (designated e))
             /\ onloadend r1 = onloadend r
             /\ sent r1 = (if is_none (send_fault r) then S (sent r) else sent r)).
  { subst w1. destruct w as [l g lg]. destruct l. destruct g. destruct r.
    simpl in *. subst.
    unfold after, load, PreloadJS, setTimeout, send, the_request, update_request, _sendError,
      _isCanceled, try_catch, bind, this, gets, modify, ret, throw, when, emit, on_self,
      on_win. simpl.
    destruct (_xhrLevel0 =? 1)%Z; simpl; destruct send_fault0; simpl;
      try (destruct canceled0; simpl; try destruct onError0; simpl;
           try destruct _listeners0; simpl);
      eexists; repeat split; intros ev; destruct ev; reflexivity. }
  destruct E as (r1 & E1 & E2 & E3 & E4). exists r1.
  repeat split; try assumption.
  intros e. unfold step, deliver.
  rewrite (bind_normal w1 w1 (_request (self w1))) by reflexivity.
  rewrite E1, E2. reflexivity.
Qed.

(** X15: The manual timer exists on level 1 only: [load()] installs one timer
    and keeps its handle when [_xhrLevel] is 1, and touches neither the
    timers nor the handle otherwise. *)
Theorem manual_timer_on_level_1_only (w : world) (r : request) :
  _request (self w) = Some r -> createjs (win w) = true ->
  let w1 := after load w in
  timers (win w1)
  = (if (_xhrLevel (self w) =? 1)%Z then next_timer (win w) :: timers (win w)
     else timers (win w))
  /\ _loadTimeout (self w1)
     = (if (_xhrLevel (self w) =? 1)%Z then Some (next_timer (win w))
        else _loadTimeout (self w)).
Proof.
  intros Hr Hc w1. subst w1. destruct w as [l g lg]. destruct l. destruct g. destruct r.
  simpl in *. subst.
  unfold after, load, PreloadJS, setTimeout, send, the_request, update_request, _sendError,
    _isCanceled, try_catch, bind, this, gets, modify, ret, throw, when, emit, on_self,
    on_win. simpl.
  destruct (_xhrLevel0 =? 1)%Z; simpl; destruct send_fault0; simpl;
    try (destruct canceled0; simpl; try destruct onError0; simpl;
         try destruct _listeners0; simpl);
    split; reflexivity.
Qed.

End Starting.

(** ** Creating the transport *)

Section Creating.

Variable isBinary : item_type -> bool.

(** X16: Where neither XDomainRequest nor XMLHttpRequest exists, [_createXHR]
    answers [false] exactly when none of the three ActiveX objects can be
    built, and then it has changed nothing: the loader keeps the transport
    it had, none on a new loader. *)
Theorem createXHR_fails_without_any_transport (i : item) (w : world) :
  has_XDomainRequest (win w) = false -> has_XMLHttpRequest (win w) = false ->
  let none_of_three :=
    new_transport (win w) (ActiveXObject "Msxml2.XMLHTTP.6.0") = None
    /\ new_transport (win w) (ActiveXObject "Msxml2.XMLHTTP.3.0") = None
    /\ new_transport (win w) (ActiveXObject "Msxml2.XMLHTTP") = None in
  (outcome (_createXHR isBinary i) w = Normal false <-> none_of_three)
  /\ (none_of_three -> _createXHR isBinary i w = (Normal false, w)).
Proof.
  intros Hd Hx none_of_three. subst none_of_three.
  unfold outcome, _createXHR.
  rewrite (bind_normal w w (win w)) by reflexivity.
  rewrite Hd, Hx, andb_false_r.
  unfold construct, PreloadJS, try_catch, bind, gets, modify, ret, throw.
  destruct (new_transport (win w) (ActiveXObject "Msxml2.XMLHTTP.6.0")) as [r6 | ] eqn:E6;
    simpl; [ | destruct (new_transport (win w) (ActiveXObject "Msxml2.XMLHTTP.3.0"))
                 as [r3 | ] eqn:E3; simpl;
               [ | destruct (new_transport (win w) (ActiveXObject "Msxml2.XMLHTTP"))
                     as [r0 | ] eqn:E0; simpl ] ];
    try (split; [split; [intros _; repeat split | reflexivity] | reflexivity]);
    (split; [split; [ | intros (H1 & H2 & H3); discriminate]
            | intros (H1 & H2 & H3); discriminate]);
    destruct (createjs (win w)); simpl; try discriminate;
    match goal with
    | |- context [if ?c then _ else _] => destruct c; simpl; discriminate
    end.
Qed.

(** X17: A cross-domain item where the [XMLHttpRequest] global does not exist:
    the transport is built from ActiveX, but the test
    [req instanceof XMLHttpRequest] throws, so the constructor throws and
    the loader is left without transport. *)
Theorem cross_domain_needs_the_XMLHttpRequest_global
    (i : item) (w : world) (r0 : request) :
  createjs (win w) = true -> cross_domain (win w) i = true ->
  has_XDomainRequest (win w) = false -> has_XMLHttpRequest (win w) = false ->
  new_transport (win w) (ActiveXObject "Msxml2.XMLHTTP.6.0") = Some r0 ->
  let w1 := after (_createXHR isBinary i) w in
  (exists what, outcome (_createXHR isBinary i) w = Throw (ReferenceError what))
  /\ _request (self w1) = _request (self w) /\ log w1 = log w.
Proof.
  intros Hc Hx Hd Hh Hn w1. subst w1. unfold cross_domain in Hx.
  unfold outcome, after, _createXHR.
  rewrite (bind_normal w w (win w)) by reflexivity.
  rewrite Hd, Hh, andb_false_r, Hx.
  unfold construct, PreloadJS, try_catch, bind, gets, modify, ret, throw.
  rewrite Hn. simpl. rewrite Hc. simpl.
  repeat split. eexists. reflexivity.
Qed.

(** X18: The usual path.  The transport is an XDomainRequest for a cross-domain
    item where one exists, an XMLHttpRequest otherwise.  It is opened for an
    asynchronous GET of the item's source; the level is 2 if the transport
    came with a [responseType] and 1 otherwise, whatever is assigned to
    [responseType] afterwards; the Origin header is added exactly to a
    cross-domain XMLHttpRequest of level 1; a binary item asks for an
    array buffer; a text item overrides the mime type where the transport
    can.  Nothing is sent and no hook is bound. *)
Theorem createXHR_configures_the_transport (i : item) (w : world) (r0 : request) :
  createjs (win w) = true -> has_XMLHttpRequest (win w) = true ->
  let cross := cross_domain (win w) i in
  let k := if cross && has_XDomainRequest (win w) then XDomainRequest else XMLHttpRequest in
  new_transport (win w) k = Some r0 ->
  let w1 := after (_createXHR isBinary i) w in
  let level := match responseType r0 with Some _ => 2%Z | None => 1%Z end in
  outcome (_createXHR isBinary i) w = Normal true
  /\ _xhrLevel (self w1) = level
  /\ log w1 = log w /\ win w1 = win w
  /\ exists r1,
       _request (self w1) = Some r1
       /\ kind r1 = kind r0
       /\ opened r1 = Some ("GET"%string, src i, true)
       /\ requestHeaders r1
          = (if cross && is_XMLHttpRequest (kind r0) && (level =? 1)%Z
             then requestHeaders r0 ++ [("Origin"%string, location_origin (win w))]
             else requestHeaders r0)
       /\ responseType r1
          = (if isBinary (type i) then Some "arraybuffer"%string else responseType r0)
       /\ mimeOverride r1
          = (if item_type_eqb (type i) TEXT && overrideMimeType r0
             then Some "text/plain; charset=x-user-defined"%string else mimeOverride r0)
       /\ hooks_free r1 = hooks_free r0 /\ sent r1 = sent r0.
Proof.
  intros Hc Hh cross k Hn w1 level. subst w1 level k cross. unfold cross_domain in *.
  unfold outcome, after, _createXHR.
  rewrite (bind_normal w w (win w)) by reflexivity.
  rewrite Hh.
  unfold construct, PreloadJS, try_catch, bind, gets, modify, ret, throw.
  match goal with
  | H : new_transport _ (if ?c && _ then _ else _) = _ |- _ => destruct c; simpl in *
  end;
    [destruct (has_XDomainRequest (win w)); simpl in * | ];
    rewrite Hn; simpl; rewrite Hc; simpl;
    destruct (item_type_eqb (type i) TEXT && overrideMimeType r0); simpl;
    destruct (responseType r0) eqn:Et; simpl;
    destruct (is_XMLHttpRequest (kind r0)); simpl;
    destruct (isBinary (type i)); simpl;
    (split; [reflexivity | split; [reflexivity | split; [reflexivity | split;
       [destruct w as [l g lg]; reflexivity
       | eexists; repeat split; simpl; rewrite ?Et; reflexivity]]]]).
Qed.

End Creating.

(** ** The further properties at work *)

Lemma error_handlers_release_the_loader_witness :
  let w1 := after (invoke eval_balanced H_handleTimeout OnTimeout) pending_load in
  log w1 = [Notice Callback Error (ErrorEvent None); Notice Dispatch Error (ErrorEvent None)]
  /\ timers (win w1) = []
  /\ log (run eval_balanced [TimerFires 1; answers 200 "late"; Fires OnLoad; TagLoads] w1)
     = log w1.
Proof.
  assert (Ht : only_manual_timer pending_load) by (intros t [<- | []]; reflexivity).
  pose proof (error_handlers_release_the_loader eval_balanced pending_load _
                H_handleTimeout OnTimeout (or_intror (or_intror eq_refl))
                eq_refl eq_refl Ht eq_refl) as (_ & H1 & H2 & _ & H3).
  split; [exact H1 | split; [exact H2 | ]].
  exact (H3 [TimerFires 1; answers 200 "late"; Fires OnLoad; TagLoads] eq_refl).
Defined.

Lemma unmaterializable_load_ends_silently_witness :
  let w1 := after (_handleLoad eval_balanced) untagged_image_fetch in
  loaded (self w1) = true
  /\ log (run eval_balanced [Fires OnLoad; Fires OnReadyStateChange; TagLoads] w1) = [].
Proof.
  assert (Ht : only_manual_timer untagged_image_fetch) by (intros t []).
  pose proof (unmaterializable_load_ends_silently eval_balanced untagged_image_fetch _
                eq_refl eq_refl eq_refl eq_refl eq_refl Ht eq_refl) as (_ & H1 & H2).
  split; [exact H1 | ].
  exact (H2 [Fires OnLoad; Fires OnReadyStateChange; TagLoads] eq_refl).
Defined.

Lemma completed_load_hears_nothing_witness :
  log (run eval_balanced [Fires OnLoad; Fires OnReadyStateChange; Fires OnError; TagLoads]
         (after (_handleLoad eval_balanced) text_fetch))
  = [Notice Callback Complete NoPayload; Notice Dispatch Complete NoPayload].
Proof.
  assert (Ht : only_manual_timer text_fetch) by (intros t []).
  exact (completed_load_hears_nothing eval_balanced text_fetch _
           eq_refl eq_refl eq_refl eq_refl eq_refl eq_refl Ht eq_refl
           [Fires OnLoad; Fires OnReadyStateChange; Fires OnError; TagLoads] eq_refl).
Defined.

Lemma evaluated_json_keeps_text_as_raw_witness :
  let w1 := after (_handleLoad eval_balanced) parsed_json_fetch in
  log w1 = [Notice Callback Complete NoPayload; Notice Dispatch Complete NoPayload]
  /\ outcome getResult w1 = Normal (Evaluated "[1, 2]")
  /\ outcome getRawResult w1 = Normal (Text "[1, 2]").
Proof.
  exact (evaluated_json_keeps_text_as_raw eval_balanced parsed_json_fetch _ _
           eq_refl eq_refl eq_refl eq_refl eq_refl eq_refl).
Defined.

Lemma unparsed_types_pass_through_witness :
  let w1 := after (_handleLoad eval_balanced) text_fetch in
  log w1 = [Notice Callback Complete NoPayload; Notice Dispatch Complete NoPayload]
  /\ outcome getResult w1 = Normal (Text "hello")
  /\ outcome getRawResult w1 = Normal Null
  /\ _item (self w1) = mkItem "hello.txt" TEXT None.
Proof.
  exact (unparsed_types_pass_through eval_balanced text_fetch _
           I eq_refl eq_refl eq_refl eq_refl).
Defined.

Lemma script_is_wrapped_witness :
  let w1 := after (_handleLoad eval_balanced) script_fetch in
  log w1 = [Notice Callback Complete NoPayload; Notice Dispatch Complete NoPayload]
  /\ outcome getResult w1 = Normal (ScriptTag (Text "var a = 1;"))
  /\ outcome getRawResult w1 = Normal (Text "var a = 1;")
  /\ _item (self w1) = mkItem "main.js" JAVASCRIPT None.
Proof.
  exact (script_is_wrapped eval_balanced script_fetch _
           eq_refl eq_refl eq_refl eq_refl eq_refl).
Defined.

Lemma style_sheet_is_injected_witness :
  let w1 := after (_handleLoad eval_balanced) css_fetch in
  log w1 = [Notice Callback Complete NoPayload; Notice Dispatch Complete NoPayload]
  /\ outcome getResult w1 = Normal ItemTag
  /\ outcome getRawResult w1 = Normal (Text "a { color: red }")
  /\ tag (_item (self w1))
     = Some (mkElement false None None [TextNode (Text "a { color: red }")] true).
Proof.
  exact (style_sheet_is_injected eval_balanced css_fetch _ blank_tag
           eq_refl eq_refl eq_refl eq_refl eq_refl eq_refl eq_refl).
Defined.

Lemma svg_is_grafted_witness :
  let w1 := after (_handleLoad eval_balanced) svg_fetch in
  log w1 = [Notice Callback Complete NoPayload; Notice Dispatch Complete NoPayload]
  /\ outcome getResult w1 = Normal ItemTag
  /\ outcome getRawResult w1 = Normal (Text "<svg/>")
  /\ tag (_item (self w1))
     = Some (mkElement false None None
               [DocumentElement (XmlDocument (Text "<svg/>") (Some "image/svg+xml"%string))]
               false).
Proof.
  exact (svg_is_grafted eval_balanced svg_fetch _ blank_tag
           eq_refl eq_refl eq_refl eq_refl eq_refl eq_refl eq_refl).
Defined.

Lemma image_completes_on_tag_load_witness :
  let w1 := after (_handleLoad eval_balanced) image_fetch in
  log w1 = []
  /\ outcome getResult w1 = Normal ItemTag
  /\ outcome getRawResult w1 = Normal (Text "GIF89a")
  /\ tag (_item (self w1)) = Some (mkElement true (Some "logo.gif"%string) None [] false)
  /\ count Callback Complete (log (run eval_balanced [TagLoads; TagLoads] w1)) = 2.
Proof.
  pose proof (image_completes_on_tag_load eval_balanced image_fetch _ blank_tag
                eq_refl eq_refl eq_refl eq_refl eq_refl eq_refl)
    as (H1 & H2 & H3 & H4 & H5).
  split; [exact H1 | ]. split; [exact H2 | ]. split; [exact H3 | ]. split; [exact H4 | ].
  exact (proj1 (H5 2)).
Defined.

Lemma getResponse_takes_first_available_witness :
  _getResponse text_fetch = (Normal (Text "hello"), text_fetch).
Proof.
  exact (proj1 (proj2 (getResponse_takes_first_available text_fetch)) _ eq_refl).
Defined.

Lemma sendProgress_on_numbers_witness :
  progress (self (after (_sendProgress (Primitive one)) text_fetch)) = zero
  /\ progress (self (after (_sendProgress (NumberObject infinity)) text_fetch)) = infinity.
Proof.
  split.
  - exact (proj1 (proj1 (sendProgress_on_numbers one text_fetch eq_refl))).
  - exact (proj1 (proj1 (proj2 (sendProgress_on_numbers infinity text_fetch eq_refl)))).
Defined.

Lemma cancel_releases_and_aborts_witness :
  let w1 := after (cancel eval_balanced) pending_load in
  outcome (cancel eval_balanced) pending_load = Normal tt
  /\ canceled (self w1) = true /\ log w1 = [] /\ timers (win w1) = [].
Proof.
  assert (Ht : only_manual_timer pending_load) by (intros t [<- | []]; reflexivity).
  pose proof (cancel_releases_and_aborts eval_balanced pending_load _ eq_refl Ht)
    as (H1 & H2 & H3 & H4 & _).
  split; [exact H1 | ]. split; [exact H2 | ]. split; [exact H3 | exact H4].
Defined.

Lemma cancel_without_transport_throws_witness :
  let w := listening (mkItem "data.json" JSON None) bare in
  let w1 := after (cancel eval_balanced) w in
  canceled (self w1) = true /\ log w1 = []
  /\ _sendError None w1 = (Normal tt, w1).
Proof.
  pose proof (cancel_without_transport_throws eval_balanced
                (listening (mkItem "data.json" JSON None) bare) eq_refl)
    as (_ & H1 & H2 & H3).
  split; [exact H1 | ]. split; [exact H2 | exact (H3 _)].
Defined.

Lemma load_binds_each_event_witness :
  let w1 := after load (listening (mkItem "data.json" JSON None) modern) in
  exists r1,
    _request (self w1) = Some r1
    /\ onerror r1 = Some H_handleError /\ onload r1 = Some H_handleLoad
    /\ onloadend r1 = None /\ sent r1 = 1.
Proof.
  destruct (load_binds_each_event eval_balanced
              (listening (mkItem "data.json" JSON None) modern) _ eq_refl eq_refl)
    as (r1 & H1 & H2 & H3 & H4 & _).
  exists r1. split; [exact H1 | ]. split; [exact (H2 OnError) | ].
  split; [exact (H2 OnLoad) | ]. split; [exact H3 | exact H4].
Defined.

Lemma manual_timer_on_level_1_only_witness :
  (let w1 := after load (listening (mkItem "data.json" JSON None) legacy) in
   timers (win w1) = [1] /\ _loadTimeout (self w1) = Some 1)
  /\ (let w1 := after load (listening (mkItem "data.json" JSON None) modern) in
      timers (win w1) = [] /\ _loadTimeout (self w1) = None).
Proof.
  split.
  - exact (manual_timer_on_level_1_only
             (listening (mkItem "data.json" JSON None) legacy) _ eq_refl eq_refl).
  - exact (manual_timer_on_level_1_only
             (listening (mkItem "data.json" JSON None) modern) _ eq_refl eq_refl).
Defined.

Lemma createXHR_fails_without_any_transport_witness :
  let file := mkItem "data.json" JSON None in
  let w := mkWorld (prototype file) bare [] in
  _createXHR binary_types file w = (Normal false, w).
Proof.
  exact (proj2 (createXHR_fails_without_any_transport binary_types
                  (mkItem "data.json" JSON None)
                  (mkWorld (prototype (mkItem "data.json" JSON None)) bare [])
                  eq_refl eq_refl)
           (conj eq_refl (conj eq_refl eq_refl))).
Defined.

Lemma cross_domain_needs_the_XMLHttpRequest_global_witness :
  let file := mkItem "http://cdn.example.org/data.json" JSON None in
  let w := mkWorld (prototype file) activex_only [] in
  (exists what, outcome (_createXHR binary_types file) w = Throw (ReferenceError what))
  /\ _request (self (after (_createXHR binary_types file) w)) = None.
Proof.
  pose proof (cross_domain_needs_the_XMLHttpRequest_global binary_types
                (mkItem "http://cdn.example.org/data.json" JSON None)
                (mkWorld (prototype (mkItem "http://cdn.example.org/data.json" JSON None))
                   activex_only [])
                _ eq_refl eq_refl eq_refl eq_refl eq_refl) as (H1 & H2 & _).
  split; [exact H1 | exact H2].
Defined.

Lemma createXHR_configures_the_transport_witness :
  let file := mkItem "hello.txt" TEXT None in
  let w := mkWorld (prototype file) modern [] in
  let w1 := after (_createXHR binary_types file) w in
  outcome (_createXHR binary_types file) w = Normal true
  /\ _xhrLevel (self w1) = 2%Z
  /\ exists r1,
       _request (self w1) = Some r1
       /\ kind r1 = XMLHttpRequest
       /\ opened r1 = Some ("GET"%string, "hello.txt"%string, true)
       /\ requestHeaders r1 = []
       /\ mimeOverride r1 = Some "text/plain; charset=x-user-defined"%string.
Proof.
  destruct (createXHR_configures_the_transport binary_types
              (mkItem "hello.txt" TEXT None)
              (mkWorld (prototype (mkItem "hello.txt" TEXT None)) modern [])
              _ eq_refl eq_refl eq_refl)
    as (H1 & H2 & _ & _ & r1 & H3 & H4 & H5 & H6 & _ & H7 & _).
  split; [exact H1 | ]. split; [exact H2 | ].
  exists r1. split; [exact H3 | ]. split; [exact H4 | ]. split; [exact H5 | ].
  split; [exact H6 | exact H7].
Defined.

(** ** Parsing a file path *)

Section Paths.

Local Open Scope string_scope.

Lemma or_else_some {R} (a b : option R) (x : R) :
  or_else a b = Some x -> a = Some x \/ (a = None /\ b = Some x).
Proof. destruct a; simpl; intros H; [left | right; split]; congruence. Qed.

Section Sound.
Context {R : Type}.

Lemma repeat_greedy_sound (a : regex)
  (IH : forall s c (k : cont R) x, exec a s c k = Some x ->
        exists s' c', derives a s s' c c' /\ k s' c' = Some x) :
  forall fuel s c (k : cont R) x,
    repeat_greedy (exec a) fuel s c k = Some x ->
    exists s' c', derives (Plus a) s s' c c' /\ k s' c' = Some x.
Proof.
  induction fuel as [ | fuel IHf]; intros s c k x H; [discriminate | ].
  simpl in H. apply IH in H. destruct H as (s1 & c1 & D1 & H).
  apply or_else_some in H. destruct H as [H | [_ H]].
  - destruct (String.length s1 <? String.length s)%nat; [ | discriminate].
    apply IHf in H. destruct H as (s2 & c2 & D2 & H).
    exists s2, c2. split; [eapply D_PlusMore; eassumption | exact H].
  - exists s1, c1. split; [apply D_PlusOne; exact D1 | exact H].
Qed.

Lemma repeat_exactly_sound (a : regex)
  (IH : forall s c (k : cont R) x, exec a s c k = Some x ->
        exists s' c', derives a s s' c c' /\ k s' c' = Some x) :
  forall n s c (k : cont R) x,
    repeat_exactly (exec a) n s c k = Some x ->
    exists s' c', derives (Times n a) s s' c c' /\ k s' c' = Some x.
Proof.
  induction n as [ | n IHn]; intros s c k x H; simpl in H.
  - exists s, c. split; [apply D_TimesO | exact H].
  - apply IH in H. destruct H as (s1 & c1 & D1 & H).
    apply IHn in H. destruct H as (s2 & c2 & D2 & H).
    exists s2, c2. split; [eapply D_TimesS; eassumption | exact H].
Qed.

Lemma exec_sound (r : regex) :
  forall s c (k : cont R) x, exec r s c k = Some x ->
  exists s' c', derives r s s' c c' /\ k s' c' = Some x.
Proof.
  induction r as [p | a IHa b IHb | a IHa b IHb | a IHa | a IHa | n a IHa | i a IHa];
    intros s c k x H; cbn [exec] in H.
  - destruct s as [ | ch s]; [discriminate | ].
    destruct (p ch) eqn:E; [ | discriminate].
    exists s, c. split; [constructor; exact E | exact H].
  - apply IHa in H. destruct H as (s1 & c1 & D1 & H).
    apply IHb in H. destruct H as (s2 & c2 & D2 & H).
    exists s2, c2. split; [eapply D_Seq; eassumption | exact H].
  - apply or_else_some in H. destruct H as [H | [_ H]].
    + apply IHa in H. destruct H as (s1 & c1 & D1 & H).
      exists s1, c1. split; [apply D_AltL; exact D1 | exact H].
    + apply IHb in H. destruct H as (s1 & c1 & D1 & H).
      exists s1, c1. split; [apply D_AltR; exact D1 | exact H].
  - apply or_else_some in H. destruct H as [H | [_ H]].
    + apply IHa in H. destruct H as (s1 & c1 & D1 & H).
      exists s1, c1. split; [apply D_OptSome; exact D1 | exact H].
    + exists s, c. split; [apply D_OptNone | exact H].
  - eapply repeat_greedy_sound; [exact IHa | exact H].
  - eapply repeat_exactly_sound; [exact IHa | exact H].
  - apply IHa in H. destruct H as (s1 & c1 & D1 & H).
    exists s1, (capture i (consumed s s1) c1). split; [constructor; exact D1 | exact H].
Qed.

End Sound.

Lemma append_assoc (a b c : string) : (a ++ b) ++ c = a ++ (b ++ c).
Proof. induction a as [ | x a IH]; simpl; [reflexivity | rewrite IH; reflexivity]. Qed.

Lemma append_empty_r (a : string) : a ++ "" = a.
Proof. induction a as [ | x a IH]; simpl; [reflexivity | rewrite IH; reflexivity]. Qed.

Lemma length_append (a b : string) :
  String.length (a ++ b) = (String.length a + String.length b)%nat.
Proof. induction a as [ | x a IH]; simpl; [reflexivity | rewrite IH; reflexivity]. Qed.

Lemma consumed_refl (s : string) : consumed s s = "".
Proof. destruct s as [ | a s]; simpl; [reflexivity | rewrite Nat.leb_refl; reflexivity]. Qed.

Lemma consumed_append (u s : string) : consumed (u ++ s) s = u.
Proof.
  induction u as [ | a u IH].
  - apply consumed_refl.
  - change (String a u ++ s) with (String a (u ++ s)).
    unfold consumed; fold consumed.
    replace (String.length (String a (u ++ s)) <=? String.length s)%nat with false.
    + rewrite IH. reflexivity.
    + symmetry. apply Nat.leb_gt. simpl. rewrite length_append. lia.
Qed.

Lemma every_append (p : ascii -> bool) (a b : string) :
  every p (a ++ b) = every p a && every p b.
Proof.
  induction a as [ | x a IH]; simpl; [reflexivity | ].
  rewrite IH. apply andb_assoc.
Qed.

Lemma derives_split r s s' c c' : derives r s s' c c' -> exists u, s = u ++ s'.
Proof.
  induction 1 as [p a s c E | a b s s1 s2 c c1 c2 _ [u1 E1] _ [u2 E2]
    | a b s s1 c c1 _ IH | a b s s1 c c1 _ IH | a s s1 c c1 _ IH | a s c
    | a s s1 c c1 _ IH | a s s1 s2 c c1 c2 _ [u1 E1] _ [u2 E2] | a s c
    | n a s s1 s2 c c1 c2 _ [u1 E1] _ [u2 E2] | i a s s1 c c1 _ IH];
    try exact IH;
    try (exists ""; reflexivity);
    try (exists (u1 ++ u2); rewrite append_assoc, <- E2; exact E1).
  exists (String a ""). reflexivity.
Qed.

Lemma inv_char p s s' c c' :
  derives (Char p) s s' c c' -> exists a, s = String a s' /\ p a = true /\ c' = c.
Proof. inversion 1; subst. eexists; repeat split; assumption. Qed.

Lemma inv_lit x s s' c c' :
  derives (lit x) s s' c c' -> s = String x s' /\ c' = c.
Proof.
  intros H. apply inv_char in H. destruct H as (a & -> & E & ->).
  apply Ascii.eqb_eq in E. subst. split; reflexivity.
Qed.

Lemma inv_seq a b s s2 c c2 :
  derives (Seq a b) s s2 c c2 ->
  exists s1 c1, derives a s s1 c c1 /\ derives b s1 s2 c1 c2.
Proof. inversion 1; subst. eexists _, _; split; eassumption. Qed.

Lemma inv_class p s s' c c' :
  derives (Plus (Char p)) s s' c c' ->
  exists u, s = u ++ s' /\ (u <> "" /\ every p u = true) /\ c' = c.
Proof.
  intros H. remember (Plus (Char p)) as r eqn:Er.
  induction H as [ | | | | | | a s s1 c c1 H _ | a s s1 s2 c c1 c2 H _ H' IH | | | ];
    try discriminate; injection Er as ->.
  - apply inv_char in H. destruct H as (x & -> & E & ->).
    exists (String x ""). simpl. rewrite E. repeat split. discriminate.
  - apply inv_char in H. destruct H as (x & -> & E & ->).
    destruct (IH eq_refl) as (u & -> & [_ Eu] & ->).
    exists (String x u). simpl. rewrite E, Eu. repeat split. discriminate.
Qed.

Lemma inv_twice a s s' c c' :
  derives (Times 2 a) s s' c c' ->
  exists s1 c1, derives a s s1 c c1 /\ derives a s1 s' c1 c'.
Proof.
  intros H. inversion H; subst.
  match goal with H : derives (Times 1 _) _ _ _ _ |- _ => inversion H; subst end.
  match goal with H : derives (Times 0 _) _ _ _ _ |- _ => inversion H; subst end.
  eexists _, _; split; eassumption.
Qed.

Lemma inv_alt a b s s' c c' :
  derives (Alt a b) s s' c c' -> derives a s s' c c' \/ derives b s s' c c'.
Proof. inversion 1; subst; [left | right]; assumption. Qed.

Lemma inv_opt a s s' c c' :
  derives (Opt a) s s' c c' -> derives a s s' c c' \/ (s' = s /\ c' = c).
Proof. inversion 1; subst; [left; assumption | right; split; reflexivity]. Qed.

Lemma inv_group i a s s' c c' :
  derives (Group i a) s s' c c' ->
  exists c1, derives a s s' c c1 /\ c' = capture i (consumed s s') c1.
Proof. inversion 1; subst. eexists; split; [eassumption | reflexivity]. Qed.

Lemma inv_optional_group (P : string -> Prop) i a s s' c c' :
  (forall s s' c c', derives a s s' c c' -> exists u, s = u ++ s' /\ P u /\ c' = c) ->
  derives (Opt (Group i a)) s s' c c' ->
  exists o, s = or_empty o ++ s' /\ c' = opt_capture i o c /\
            (forall u, o = Some u -> P u).
Proof.
  intros Ha H. apply inv_opt in H. destruct H as [H | [-> ->]].
  - apply inv_group in H. destruct H as (c1 & H & ->).
    apply Ha in H. destruct H as (u & -> & Pu & ->).
    exists (Some u). rewrite consumed_append. repeat split.
    intros u' [= <-]. exact Pu.
  - exists None. repeat split. discriminate.
Qed.

Lemma protocol_body s s' c c' :
  derives (Seq (Plus (Char word_char)) (Seq (lit ":") (Times 2 (lit "/")))) s s' c c' ->
  exists u, s = u ++ s' /\ is_protocol u /\ c' = c.
Proof.
  intros H.
  apply inv_seq in H. destruct H as (s1 & c1 & H1 & H).
  apply inv_seq in H. destruct H as (s2 & c2 & H2 & H).
  apply inv_twice in H. destruct H as (s3 & c3 & H3 & H4).
  apply inv_class in H1. destruct H1 as (u & -> & Pu & ->).
  apply inv_lit in H2, H3, H4.
  destruct H2 as [-> ->], H3 as [-> ->], H4 as [-> ->].
  exists (u ++ "://"). split; [ | split; [ | reflexivity]].
  - rewrite append_assoc. reflexivity.
  - exists u. split; [reflexivity | exact Pu].
Qed.

Lemma domain_body s s' c c' :
  derives (Seq (Times 2 (Seq (Plus (Char word_char)) (lit "."))) (Plus (Char word_char)))
    s s' c c' ->
  exists u, s = u ++ s' /\ is_domain u /\ c' = c.
Proof.
  intros H.
  apply inv_seq in H. destruct H as (s2 & c2 & H & H3).
  apply inv_twice in H. destruct H as (s1 & c1 & H1 & H2).
  apply inv_seq in H1. destruct H1 as (t1 & d1 & H1 & L1).
  apply inv_seq in H2. destruct H2 as (t2 & d2 & H2 & L2).
  apply inv_class in H1, H2, H3.
  destruct H3 as (d & -> & Pd & ->).
  apply inv_lit in L2. destruct L2 as [-> ->].
  destruct H2 as (b & -> & Pb & ->).
  apply inv_lit in L1. destruct L1 as [-> ->].
  destruct H1 as (a & -> & Pa & ->).
  exists (a ++ "." ++ b ++ "." ++ d). split; [ | split; [ | reflexivity]].
  - rewrite ?append_assoc; simpl; rewrite ?append_assoc; reflexivity.
  - exists a, b, d. split; [reflexivity | ]. split; [exact Pa | split; [exact Pb | exact Pd]].
Qed.

Lemma directory_body s s' c c' :
  derives (Alt (Seq (Opt (lit "/")) (Seq (Plus (Char non_space)) (lit "/"))) (lit "/"))
    s s' c c' ->
  exists u, s = u ++ s' /\ is_directory u /\ c' = c.
Proof.
  intros H. apply inv_alt in H. destruct H as [H | H].
  - apply inv_seq in H. destruct H as (s1 & c1 & H1 & H).
    apply inv_seq in H. destruct H as (s2 & c2 & H2 & H3).
    apply inv_lit in H3. destruct H3 as [-> ->].
    apply inv_class in H2. destruct H2 as (u & -> & [_ Pu] & ->).
    apply inv_opt in H1. destruct H1 as [H1 | [<- ->]].
    + apply inv_lit in H1. destruct H1 as [-> ->].
      exists (("/" ++ u) ++ "/"). split; [ | split; [ | reflexivity]].
      * rewrite !append_assoc. reflexivity.
      * exists ("/" ++ u). split; [reflexivity | ]. simpl. exact Pu.
    + exists (u ++ "/"). split; [ | split; [ | reflexivity]].
      * rewrite !append_assoc. reflexivity.
      * exists u. split; [reflexivity | exact Pu].
  - apply inv_lit in H. destruct H as [-> ->].
    exists "/". repeat split. exists "". split; reflexivity.
Qed.

Lemma params_body s s' c c' :
  derives (Seq (lit "?") (Plus (Char non_space))) s s' c c' ->
  exists u, s = u ++ s' /\ is_params u /\ c' = c.
Proof.
  intros H. apply inv_seq in H. destruct H as (s1 & c1 & H1 & H).
  apply inv_lit in H1. destruct H1 as [-> ->].
  apply inv_class in H. destruct H as (q & -> & Pq & ->).
  exists ("?" ++ q). repeat split. exists q. split; [reflexivity | exact Pq].
Qed.

Lemma FILE_PATTERN_sound s s' c :
  derives FILE_PATTERN s s' no_captures c ->
  exists o1 o2 o3 u4 o5 o6,
    s = (or_empty o1 ++ or_empty o2 ++ or_empty o3 ++ u4 ++ "." ++
         or_empty o5 ++ or_empty o6) ++ s' /\
    (c 1 = o1 /\ c 2 = o2 /\ c 3 = o3 /\ c 4 = Some u4 /\ c 5 = o5 /\ c 6 = o6) /\
    (forall u, o1 = Some u -> is_protocol u) /\
    (forall u, o2 = Some u -> is_domain u) /\
    (forall u, o3 = Some u -> is_directory u) /\
    is_file u4 /\
    (forall u, o5 = Some u -> is_ext u) /\
    (forall u, o6 = Some u -> is_params u).
Proof.
  unfold FILE_PATTERN. intros H.
  apply inv_seq in H. destruct H as (s1 & c1 & H1 & H).
  apply inv_seq in H. destruct H as (s2 & c2 & H2 & H).
  apply inv_seq in H. destruct H as (s3 & c3 & H3 & H).
  apply inv_seq in H. destruct H as (s4 & c4 & H4 & H).
  apply inv_seq in H. destruct H as (s5 & c5 & Hd & H).
  apply inv_seq in H. destruct H as (s6 & c6 & H5 & H6).
  apply (inv_optional_group is_params) in H6; [ | apply params_body].
  destruct H6 as (o6 & -> & -> & P6).
  apply (inv_optional_group is_ext) in H5; [ | apply inv_class].
  destruct H5 as (o5 & -> & -> & P5).
  apply inv_lit in Hd. destruct Hd as [-> ->].
  apply inv_group in H4. destruct H4 as (c4' & H4 & ->).
  apply inv_class in H4. destruct H4 as (u4 & -> & P4 & ->).
  rewrite consumed_append.
  apply (inv_optional_group is_directory) in H3; [ | apply directory_body].
  destruct H3 as (o3 & -> & -> & P3).
  apply (inv_optional_group is_domain) in H2; [ | apply domain_body].
  destruct H2 as (o2 & -> & -> & P2).
  apply (inv_optional_group is_protocol) in H1; [ | apply protocol_body].
  destruct H1 as (o1 & -> & -> & P1).
  exists o1, o2, o3, u4, o5, o6.
  split; [ | split; [ | auto 10]].
  - rewrite ?append_assoc; simpl; rewrite ?append_assoc; reflexivity.
  - destruct o1, o2, o3, o5, o6; repeat split; reflexivity.
Qed.

Lemma search_sound r s m c :
  search r s = Some (m, c) ->
  exists before rest, s = before ++ m ++ rest /\
    derives r (m ++ rest) rest no_captures c.
Proof.
  assert (Hit : forall s, exec r s no_captures (fun s' c => Some (consumed s s', c))
                          = Some (m, c) ->
                exists rest, s = m ++ rest /\ derives r (m ++ rest) rest no_captures c).
  { intros s0 H. apply exec_sound in H. destruct H as (s' & c' & D & H).
    destruct (derives_split _ _ _ _ _ D) as [u E].
    rewrite E in H at 1. rewrite consumed_append in H. injection H as Em Ec.
    subst m c. exists s'. rewrite <- E. split; [reflexivity | exact D]. }
  induction s as [ | a s IH]; intros H;
    unfold search in H; fold search in H; apply or_else_some in H.
  - destruct H as [H | [_ H]]; [ | discriminate].
    apply Hit in H. destruct H as (rest & E & D). exists "", rest. split; assumption.
  - destruct H as [H | [_ H]].
    + apply Hit in H. destruct H as (rest & E & D). exists "", rest. split; assumption.
    + apply IH in H. destruct H as (before & rest & -> & D).
      exists (String a before), rest. split; [reflexivity | exact D].
Qed.

Lemma append_cancel_r (a b s : string) : a ++ s = b ++ s -> a = b.
Proof.
  revert b. induction a as [ | x a IH]; intros [ | y b] E; simpl in E.
  - reflexivity.
  - exfalso. apply (f_equal String.length) in E. simpl in E.
    rewrite length_append in E. lia.
  - exfalso. apply (f_equal String.length) in E. simpl in E.
    rewrite length_append in E. lia.
  - injection E as -> E. apply IH in E. subst. reflexivity.
Qed.

Lemma parseURI_spec p m :
  _parseURI p = Some m ->
  (exists before rest, p = before ++ m_whole m ++ rest) /\
  m_whole m = or_empty (m_protocol m) ++ or_empty (m_domain m) ++
              or_empty (m_path m) ++ or_empty (m_file m) ++ "." ++
              or_empty (m_ext m) ++ or_empty (m_params m) /\
  (forall u, m_protocol m = Some u -> is_protocol u) /\
  (forall u, m_domain m = Some u -> is_domain u) /\
  (forall u, m_path m = Some u -> is_directory u) /\
  (exists u, m_file m = Some u /\ is_file u) /\
  (forall u, m_ext m = Some u -> is_ext u) /\
  (forall u, m_params m = Some u -> is_params u).
Proof.
  unfold _parseURI. intros H.
  assert (Hs : exists w c, search FILE_PATTERN p = Some (w, c) /\
             m = mkMatch w (c 1) (c 2) (c 3) (c 4) (c 5) (c 6)).
  { destruct p; [discriminate | ].
    destruct (search FILE_PATTERN _) as [[w c] | ]; [ | discriminate].
    injection H as <-. exists w, c. split; reflexivity. }
  clear H. destruct Hs as (w & c & H & ->).
  cbn [m_whole m_protocol m_domain m_path m_file m_ext m_params].
  apply search_sound in H. destruct H as (before & rest & -> & D).
  apply FILE_PATTERN_sound in D.
  destruct D as (o1 & o2 & o3 & u4 & o5 & o6 & E & (-> & -> & -> & E4 & -> & ->) & P).
  rewrite E4. apply append_cancel_r in E.
  split; [exists before, rest; reflexivity | ]. split; [exact E | ].
  destruct P as (P1 & P2 & P3 & P4 & P5 & P6).
  split; [exact P1 | ]. split; [exact P2 | ]. split; [exact P3 | ].
  split; [exists u4; split; [reflexivity | exact P4] | ].
  split; [exact P5 | exact P6].
Qed.

Lemma occurrences_append x a b :
  occurrences x (a ++ b) = (occurrences x a + occurrences x b)%nat.
Proof. induction a as [ | y a IH]; simpl; [reflexivity | rewrite IH; lia]. Qed.

Lemma occurrences_absent p x s :
  p x = false -> every p s = true -> occurrences x s = 0%nat.
Proof.
  intros Hx. induction s as [ | a s IH]; simpl; [reflexivity | ].
  intros H. apply andb_true_iff in H. destruct H as [Ha Hs].
  destruct (Ascii.eqb_spec a x) as [-> | _]; [congruence | ]. apply IH, Hs.
Qed.

Lemma dotless_occurrences s : dotless s = true -> occurrences "." s = 0%nat.
Proof.
  apply occurrences_absent. reflexivity.
Qed.

Section Complete.
Context {R : Type}.

Lemma exec_none (r : regex) s c (k : cont R) :
  (forall s' c', ~ derives r s s' c c') -> exec r s c k = None.
Proof.
  intros H. destruct (exec r s c k) as [x | ] eqn:E; [ | reflexivity].
  apply exec_sound in E. destruct E as (s' & c' & D & _). destruct (H _ _ D).
Qed.

Lemma repeat_greedy_step once fuel s c (k : cont R) :
  repeat_greedy once (S fuel) s c k =
  once s c (fun s' c' =>
    or_else (if (String.length s' <? String.length s)%nat
             then repeat_greedy once fuel s' c' k else None) (k s' c')).
Proof. reflexivity. Qed.

Lemma exec_char p a s c (k : cont R) :
  exec (Char p) (String a s) c k = if p a then k s c else None.
Proof. reflexivity. Qed.

Lemma class_stops p fuel s c (k : cont R) :
  stops p s = true -> repeat_greedy (exec (Char p)) fuel s c k = None.
Proof.
  intros H. destruct fuel as [ | fuel]; [reflexivity | ].
  destruct s as [ | a s]; [reflexivity | ].
  simpl in *. destruct (p a); [discriminate | reflexivity].
Qed.

Lemma class_greedy_fuel p s' c (k : cont R) x :
  stops p s' = true -> k s' c = Some x ->
  forall u fuel, u <> "" -> every p u = true -> (String.length u <= fuel)%nat ->
  repeat_greedy (exec (Char p)) fuel (u ++ s') c k = Some x.
Proof.
  intros Hs Hk. induction u as [ | a u IH]; intros fuel Hu Hp Hf; [congruence | ].
  destruct fuel as [ | fuel]; [simpl in Hf; lia | ].
  simpl in Hp. apply andb_true_iff in Hp. destruct Hp as [Ha Hp].
  change (String a u ++ s') with (String a (u ++ s')).
  rewrite repeat_greedy_step, exec_char, Ha.
  replace (String.length (u ++ s') <? String.length (String a (u ++ s')))%nat with true
    by (symmetry; apply Nat.ltb_lt; simpl; lia).
  destruct u as [ | b u].
  - change ("" ++ s') with s'. rewrite class_stops by exact Hs. exact Hk.
  - rewrite IH; [reflexivity | discriminate | exact Hp | simpl in *; lia].
Qed.

Lemma class_greedy p u s' c (k : cont R) x :
  u <> "" -> every p u = true -> stops p s' = true -> k s' c = Some x ->
  exec (Plus (Char p)) (u ++ s') c k = Some x.
Proof.
  intros Hu Hp Hs Hk. cbn [exec].
  apply class_greedy_fuel; try assumption.
  rewrite length_append. lia.
Qed.

End Complete.

Section Equations.
Context {R : Type}.

Lemma exec_seq a b s c (k : cont R) :
  exec (Seq a b) s c k = exec a s c (fun s' c' => exec b s' c' k).
Proof. reflexivity. Qed.

Lemma exec_opt a s c (k : cont R) :
  exec (Opt a) s c k = or_else (exec a s c k) (k s c).
Proof. reflexivity. Qed.

Lemma exec_group i a s c (k : cont R) :
  exec (Group i a) s c k =
  exec a s c (fun s' c' => k s' (capture i (consumed s s') c')).
Proof. reflexivity. Qed.

Lemma class_greedy_end p u c (k : cont R) x :
  u <> "" -> every p u = true -> k "" c = Some x ->
  exec (Plus (Char p)) u c k = Some x.
Proof.
  intros Hu Hp Hk. rewrite <- (append_empty_r u).
  apply class_greedy; [exact Hu | exact Hp | reflexivity | exact Hk].
Qed.

End Equations.

Lemma search_step r s :
  search r s =
  or_else (exec r s no_captures (fun s' c => Some (consumed s s', c)))
          (match s with String _ s' => search r s' | EmptyString => None end).
Proof. destruct s; reflexivity. Qed.

Lemma consumed_all s : consumed s "" = s.
Proof. rewrite <- (append_empty_r s) at 1. apply consumed_append. Qed.

(** X19: what [_parseURI] answers is found in the path: the match is a
    stretch of the path, and it is its groups in order, those that took no
    part counting as empty, with the dot between file and extension. *)
Theorem parseURI_match_is_partitioned (path : string) (m : uri_match) :
  _parseURI path = Some m ->
  (exists before rest, path = before ++ m_whole m ++ rest)
  /\ m_whole m = or_empty (m_protocol m) ++ or_empty (m_domain m) ++ or_empty (m_path m)
                 ++ or_empty (m_file m) ++ "." ++ or_empty (m_ext m)
                 ++ or_empty (m_params m).
Proof.
  intros H. apply parseURI_spec in H. destruct H as (H1 & H2 & _).
  split; [exact H1 | exact H2].
Qed.

Lemma parseURI_match_is_partitioned_witness :
  (exists before rest, full_url = before ++ m_whole full_url_match ++ rest)
  /\ m_whole full_url_match = "http://" ++ "www.example.com" ++ "/path/to/" ++ "file"
                              ++ "." ++ "png" ++ "?x=1".
Proof.
  exact (parseURI_match_is_partitioned full_url full_url_match eq_refl).
Defined.

(** X20: what each group holds when [_parseURI] answers.  The file name is
    always there, not empty and made of word characters, [-] and [%]; an
    extension is word characters; the protocol is a word and [://]; the
    domain is three words with dots between, so a host of one or two labels
    is never reported as the domain; the path ends in a slash and has no
    white space; the parameters are [?] and no white space. *)
Theorem parseURI_groups_are_well_formed (path : string) (m : uri_match) :
  _parseURI path = Some m ->
  (exists name, m_file m = Some name /\ is_file name)
  /\ (forall u, m_ext m = Some u -> is_ext u)
  /\ (forall u, m_protocol m = Some u -> is_protocol u)
  /\ (forall u, m_domain m = Some u -> is_domain u)
  /\ (forall u, m_path m = Some u -> is_directory u)
  /\ (forall u, m_params m = Some u -> is_params u).
Proof.
  intros H. apply parseURI_spec in H.
  destruct H as (_ & _ & P1 & P2 & P3 & P4 & P5 & P6).
  split; [exact P4 | ]. split; [exact P5 | ]. split; [exact P1 | ].
  split; [exact P2 | ]. split; [exact P3 | exact P6].
Qed.

Lemma parseURI_groups_are_well_formed_witness :
  is_file "file" /\ is_ext "png" /\ is_protocol "http://" /\ is_domain "www.example.com"
  /\ is_directory "/path/to/" /\ is_params "?x=1".
Proof.
  pose proof (parseURI_groups_are_well_formed full_url full_url_match eq_refl)
    as ((name & E & P4) & P5 & P1 & P2 & P3 & P6).
  injection E as <-.
  split; [exact P4 | ]. split; [exact (P5 _ eq_refl) | ]. split; [exact (P1 _ eq_refl) | ].
  split; [exact (P2 _ eq_refl) | ]. split; [exact (P3 _ eq_refl) | exact (P6 _ eq_refl)].
Defined.

(** X21: [_parseURI] answers [null] for the empty path and for every path
    without a dot. *)
Theorem parseURI_needs_a_dot (path : string) :
  dotless path = true -> _parseURI path = None.
Proof.
  intros H. destruct (_parseURI path) as [m | ] eqn:E; [ | reflexivity].
  apply parseURI_spec in E. destruct E as ((before & rest & E) & W & _).
  apply dotless_occurrences in H. rewrite E, W in H.
  rewrite !occurrences_append in H. simpl in H. lia.
Qed.

Lemma parseURI_needs_a_dot_witness :
  _parseURI "assets/README" = None /\ _parseURI "" = None.
Proof.
  split.
  - exact (parseURI_needs_a_dot "assets/README" eq_refl).
  - exact (parseURI_needs_a_dot "" eq_refl).
Defined.

(** X22: a plain file name, a name of word characters, [-] and [%], a dot and
    an extension of word characters, is matched whole: file and extension
    are the two parts, and protocol, domain, path and parameters are
    [undefined]. *)
Theorem parseURI_simple_file_name (name ext : string) :
  is_file name -> is_ext ext ->
  _parseURI (name ++ "." ++ ext) =
  Some (mkMatch (name ++ "." ++ ext) None None None (Some name) (Some ext) None).
Proof.
  intros [Hn Pn] [He Pe].
  assert (Hcolon : occurrences ":" (name ++ "." ++ ext) = 0%nat).
  { rewrite !occurrences_append, (occurrences_absent file_char ":" name),
      (occurrences_absent word_char ":" ext); trivial. }
  assert (Hslash : occurrences "/" (name ++ "." ++ ext) = 0%nat).
  { rewrite !occurrences_append, (occurrences_absent file_char "/" name),
      (occurrences_absent word_char "/" ext); trivial. }
  assert (Hdot : occurrences "." (name ++ "." ++ ext) = 1%nat).
  { rewrite !occurrences_append, (occurrences_absent file_char "." name),
      (occurrences_absent word_char "." ext); trivial. }
  set (s := name ++ "." ++ ext) in *.
  assert (Hsearch : search FILE_PATTERN s =
            Some (s, capture 5 ext (capture 4 name no_captures))).
  { rewrite search_step. unfold FILE_PATTERN.
    rewrite exec_seq, exec_opt, exec_none; cbn [or_else].
    2:{ intros s' c' D. apply inv_group in D. destruct D as (c1 & D & _).
        apply protocol_body in D. destruct D as (u & E & (scheme & -> & _) & _).
        rewrite E, !occurrences_append in Hcolon. simpl in Hcolon. lia. }
    rewrite exec_seq, exec_opt, exec_none; cbn [or_else].
    2:{ intros s' c' D. apply inv_group in D. destruct D as (c1 & D & _).
        apply domain_body in D. destruct D as (u & E & (a & b & d & -> & _) & _).
        rewrite E, !occurrences_append in Hdot. simpl in Hdot. lia. }
    rewrite exec_seq, exec_opt, exec_none; cbn [or_else].
    2:{ intros s' c' D. apply inv_group in D. destruct D as (c1 & D & _).
        apply directory_body in D. destruct D as (u & E & (d & -> & _) & _).
        rewrite E, !occurrences_append in Hslash. simpl in Hslash. lia. }
    rewrite exec_seq, exec_group. unfold s at 1.
    erewrite class_greedy; [reflexivity | exact Hn | exact Pn | reflexivity | ].
    rewrite exec_seq. change ("." ++ ext) with (String "." ext).
    unfold lit at 1. rewrite exec_char. cbn [Ascii.eqb Bool.eqb].
    rewrite exec_seq, exec_opt, exec_group.
    erewrite class_greedy_end; [reflexivity | exact He | exact Pe | ].
    cbn beta. rewrite exec_opt. cbn [exec lit or_else].
    rewrite !consumed_all.
    change (String "." ext) with ("." ++ ext). unfold s. rewrite consumed_append.
    reflexivity. }
  unfold _parseURI. rewrite Hsearch.
  destruct s eqn:Es; [ | reflexivity].
  destruct name; [congruence | discriminate].
Qed.

Lemma parseURI_simple_file_name_witness :
  _parseURI "my-image%20.jpg"
  = Some (mkMatch "my-image%20.jpg" None None None (Some "my-image%20") (Some "jpg") None).
Proof.
  apply (parseURI_simple_file_name "my-image%20" "jpg");
    split; (discriminate || reflexivity).
Defined.

End Paths.
